(** * kidshell: a shallow embedding of [shell.c]

    The interpreter is a single C file.  Every function of it is embedded
    below as a computation over an explicit process state ([World]); the C
    library and the kernel are collaborators whose answers are supplied by
    a [Libc] record, so that every theorem holds for every behaviour the
    operating system may show. *)

From Stdlib Require Import ZArith String Ascii List DecimalString Lia.
From stdpp Require Import base gmap strings list.

Local Open Scope Z_scope.

(** ** Constants of the system headers *)

Module Sys.
(** <stdlib.h> *)
Definition EXIT_FAILURE : Z := 1.

(** <errno.h> (Linux numbering) *)
Definition ENOMEM : Z := 12.
Definition EINVAL : Z := 22.
Definition ERANGE : Z := 34.

(** <wordexp.h> (glibc): flag bits of [wordexp] ... *)
Definition WRDE_DOOFFS : Z := Z.shiftl 1 0.
Definition WRDE_APPEND : Z := Z.shiftl 1 1.
Definition WRDE_NOCMD : Z := Z.shiftl 1 2.
Definition WRDE_REUSE : Z := Z.shiftl 1 3.
Definition WRDE_SHOWERR : Z := Z.shiftl 1 4.
Definition WRDE_UNDEF : Z := Z.shiftl 1 5.

(** ... and its return codes. *)
Definition WRDE_NOSPACE : Z := 1.
Definition WRDE_BADCHAR : Z := 2.
Definition WRDE_BADVAL : Z := 3.
Definition WRDE_CMDSUB : Z := 4.
Definition WRDE_SYNTAX : Z := 5.

(** <sys/wait.h> (glibc, bits/waitstatus.h): decoding of a wait status. *)
Definition signed_char (x : Z) : Z :=
  let b := Z.land x 255 in if b <? 128 then b else b - 256.
Definition WEXITSTATUS (s : Z) : Z := Z.shiftr (Z.land s 65280) 8.
Definition WTERMSIG (s : Z) : Z := Z.land s 127.
Definition WIFEXITED (s : Z) : bool := WTERMSIG s =? 0.
Definition WIFSIGNALED (s : Z) : bool :=
  0 <? Z.shiftr (signed_char (Z.land s 127 + 1)) 1.
End Sys.
Import Sys.

(** ** Text helpers *)

Definition nl : string := String "010"%char EmptyString.
Definition eq_sign : ascii := "="%char.

(** [printf]'s [%d]. *)
Definition fmt_d (n : Z) : string := NilZero.string_of_int (Z.to_int n).

(** ** Process state *)

(** One message written by GNU [error]: the formatted text and the error
    number whose [strerror] text follows it (0: none). *)
Record diag := Diag { d_msg : string; d_errnum : Z }.

Record World := mkWorld {
  w_env : gmap string string;   (* the environment of the process *)
  w_cwd : string;               (* its working directory *)
  w_errno : Z;
  w_stdout : string;            (* everything written to standard output *)
  w_stderr : list diag;         (* everything written to standard error *)
  w_line_frees : nat;           (* calls of [free] on the line buffer *)
  w_wordfrees : nat             (* calls of [wordfree] on the expander state *)
}.

Definition set_env (e : gmap string string) (w : World) : World :=
  mkWorld e (w_cwd w) (w_errno w) (w_stdout w) (w_stderr w)
          (w_line_frees w) (w_wordfrees w).
Definition set_cwd (d : string) (w : World) : World :=
  mkWorld (w_env w) d (w_errno w) (w_stdout w) (w_stderr w)
          (w_line_frees w) (w_wordfrees w).
Definition set_errno (e : Z) (w : World) : World :=
  mkWorld (w_env w) (w_cwd w) e (w_stdout w) (w_stderr w)
          (w_line_frees w) (w_wordfrees w).
Definition put_stdout (s : string) (w : World) : World :=
  mkWorld (w_env w) (w_cwd w) (w_errno w) (w_stdout w +:+ s) (w_stderr w)
          (w_line_frees w) (w_wordfrees w).
Definition put_stderr (d : diag) (w : World) : World :=
  mkWorld (w_env w) (w_cwd w) (w_errno w) (w_stdout w) (w_stderr w ++ [d])
          (w_line_frees w) (w_wordfrees w).
Definition count_line_free (w : World) : World :=
  mkWorld (w_env w) (w_cwd w) (w_errno w) (w_stdout w) (w_stderr w)
          (S (w_line_frees w)) (w_wordfrees w).
Definition count_wordfree (w : World) : World :=
  mkWorld (w_env w) (w_cwd w) (w_errno w) (w_stdout w) (w_stderr w)
          (w_line_frees w) (S (w_wordfrees w)).

(** ** The monad of one process

    A computation either returns to its caller, or the process has ended
    through [exit] (what [error] does with a non-zero status), or its image
    has been replaced by [execvp]. *)

Inductive outcome (A : Type) : Type :=
| Ret (a : A) (w : World)
| Exited (status : Z) (w : World)
| Replaced (program : string) (argv : list string) (w : World).
Arguments Ret {A} a w.
Arguments Exited {A} status w.
Arguments Replaced {A} program argv w.

Definition Proc (A : Type) : Type := World -> outcome A.

Definition final_world {A} (o : outcome A) : World :=
  match o with Ret _ w | Exited _ w | Replaced _ _ w => w end.

Definition returns {A} (o : outcome A) : bool :=
  match o with Ret _ _ => true | _ => false end.

#[global] Instance Proc_ret : MRet Proc := λ A a w, Ret a w.
#[global] Instance Proc_bind : MBind Proc := λ A B f m w,
  match m w with
  | Ret a w' => f a w'
  | Exited s w' => Exited s w'
  | Replaced p av w' => Replaced p av w'
  end.

Definition gets {A} (f : World -> A) : Proc A := λ w, Ret (f w) w.
Definition modify (f : World -> World) : Proc unit := λ w, Ret tt (f w).

(** GNU [error (status, errnum, format, ...)]: writes the message to
    standard error and, when [status] is not zero, calls [exit (status)]. *)
Definition error (status errnum : Z) (msg : string) : Proc unit := λ w,
  let w' := put_stderr (Diag msg errnum) w in
  if status =? 0 then Ret tt w' else Exited status w'.

Definition printf (s : string) : Proc unit := modify (put_stdout s).

(** ** The C library and the kernel *)

Record Libc := {
  (* [strdup]: does the allocation succeed? *)
  strdup_ok : World -> string -> bool;
  (* [setenv] on a well-formed name: does it run out of memory? *)
  setenv_nomem : World -> string -> string -> bool;
  (* [chdir]: an error number, or the directory the process ends up in *)
  chdir_sys : World -> string -> Z + string;
  (* [getcwd]: a failure other than a too small buffer *)
  getcwd_fault : World -> option Z;
  (* [fork]: an error number, or the value returned (0 in the child) *)
  fork_sys : World -> Z + Z;
  (* [execvp]: the error number when the image could not be replaced *)
  execvp_sys : World -> string -> list string -> option Z;
  (* [waitpid (pid, &wstatus, 0)]: an error number, or the wait status *)
  waitpid_sys : World -> Z -> Z + Z;
  strsignal : Z -> string;
  (* [wordexp (line, &p, flags)]: return code and the words left in [p] *)
  wordexp_sys : World -> string -> Z -> Z * list string;
  (* ... and the environment it leaves: an expansion such as
     [${NAME:=word}] assigns to NAME, also on a line that is then refused *)
  wordexp_env : World -> string -> Z -> gmap string string
}.

(** [strsep (&s, "=")]: the token before the first delimiter and what
    follows it ([None] is C's NULL: no delimiter was found). *)
Fixpoint strsep (s : string) (delim : ascii) : string * option string :=
  match s with
  | EmptyString => (EmptyString, None)
  | String c rest =>
      if Ascii.eqb c delim then (EmptyString, Some rest)
      else let '(tok, r) := strsep rest delim in (String c tok, r)
  end.

Fixpoint strchr (s : string) (c : ascii) : bool :=
  match s with
  | EmptyString => false
  | String a rest => Ascii.eqb a c || strchr rest c
  end.

(** A name the environment functions accept (POSIX [setenv], [unsetenv]):
    not empty and without '='. *)
Definition valid_name (name : string) : bool :=
  negb (String.eqb name EmptyString) && negb (strchr name eq_sign).

(** Does the text end with a newline?  [getline] delivers a line without
    one only when the stream ended in the middle of it. *)
Definition ends_with_newline (s : string) : bool :=
  if String.get (String.length s - 1) s is Some "010"%char then true
  else false.

(** ** [strlcpy], as defined in shell.c *)

Fixpoint strlcpy_loop (src : string) (size : nat) : string :=
  match src, size with
  | String c src', S (S _ as size') => String c (strlcpy_loop src' size')
  | _, _ => EmptyString
  end.

(** [dst] is the text held by the destination before the call; the result
    is the text it holds afterwards and the value returned. *)
Definition strlcpy (dst src : string) (size : nat) : string * nat :=
  let src_len := String.length src in
  (if negb (Nat.eqb size 0) then strlcpy_loop src size else dst, src_len).

Section Shell.
Variable libc : Libc.

(** *** Library and system calls, as the process sees them

    Each call is written after its manual page: what it returns, what it
    does to the process, and the value it leaves in [errno] when it fails.
    [World] holds what this process owns or writes; what a child writes is
    not part of it. *)

(** [strdup]: the copy, or NULL ([None]) with ENOMEM. *)
Definition strdup (s : string) : Proc (option string) := λ w,
  if strdup_ok libc w s then Ret (Some s) w
  else Ret None (set_errno ENOMEM w).

Definition getenv (name : string) : Proc (option string) :=
  gets (λ w, w_env w !! name).

(** [setenv]: EINVAL for a name that is empty or contains '=', ENOMEM
    when the environment cannot grow; otherwise the name is bound to the
    value, an existing binding being replaced only when [overwrite] is
    set. *)
Definition setenv (name value : string) (overwrite : bool) : Proc Z := λ w,
  if negb (valid_name name) then Ret (-1) (set_errno EINVAL w)
  else if setenv_nomem libc w name value then Ret (-1) (set_errno ENOMEM w)
  else if overwrite || bool_decide (w_env w !! name = None)
       then Ret 0 (set_env (<[name := value]> (w_env w)) w)
       else Ret 0 w.

(** [unsetenv]: EINVAL for a name that is empty or contains '=';
    otherwise the name is removed, which succeeds also when it was not
    bound. *)
Definition unsetenv (name : string) : Proc Z := λ w,
  if negb (valid_name name) then Ret (-1) (set_errno EINVAL w)
  else Ret 0 (set_env (delete name (w_env w)) w).

(** [chdir]: on failure the working directory is the one it was. *)
Definition chdir (path : string) : Proc Z := λ w,
  match chdir_sys libc w path with
  | inl e => Ret (-1) (set_errno e w)
  | inr d => Ret 0 (set_cwd d w)
  end.

(** [getcwd (buf, size)]: the text stored in [buf], or [None] for NULL.
    The path needs [size] bytes including its terminator. *)
Definition getcwd (size : nat) : Proc (option string) := λ w,
  match getcwd_fault libc w with
  | Some e => Ret None (set_errno e w)
  | None =>
      if (String.length (w_cwd w) <? size)%nat then Ret (Some (w_cwd w)) w
      else Ret None (set_errno ERANGE w)
  end.

(** [fork]: -1, or 0 when the process followed is the child, or the
    process id of the child. *)
Definition fork : Proc Z := λ w,
  match fork_sys libc w with
  | inl e => Ret (-1) (set_errno e w)
  | inr pid => Ret pid w
  end.

(** [execvp] returns only when it fails. *)
Definition execvp (program : string) (argv : list string) : Proc Z := λ w,
  match execvp_sys libc w program argv with
  | Some e => Ret (-1) (set_errno e w)
  | None => Replaced program argv w
  end.

(** [waitpid (pid, &wstatus, 0)]: the value of the call and the status
    stored in [wstatus]. *)
Definition waitpid (pid : Z) : Proc (Z * Z) := λ w,
  match waitpid_sys libc w pid with
  | inl e => Ret (-1, 0) (set_errno e w)
  | inr st => Ret (pid, st) w
  end.

(** *** [prompt] *)

Definition MAX_PATH_AT_PROMPT : nat := 256.

Definition prompt : Proc unit :=
  r ← getcwd MAX_PATH_AT_PROMPT;
  cwd ← match r with
        | Some buf => mret buf
        | None =>
            e ← gets w_errno;
            if e =? ERANGE then
              mret (fst (strlcpy EmptyString "!Path too long to be shown!"
                                 MAX_PATH_AT_PROMPT))
            else
              error 0 e "Couldn't get cwd";;
              mret (fst (strlcpy EmptyString "!Failed to get CWD!"
                                 MAX_PATH_AT_PROMPT))
        end;
  printf ("┌[" +:+ cwd +:+ "]" +:+ nl);;
  printf "└─> ".

(** *** [do_export] *)

Fixpoint do_export (argv : list string) : Proc unit :=
  match argv with
  | [] => mret tt
  | arg :: argv' =>
      to_free ← strdup arg;
      (if to_free is None then
         e ← gets w_errno; error EXIT_FAILURE e "Couldn't copy a string"
       else mret tt);;
      let '(key, value) := strsep (default EmptyString to_free) eq_sign in
      (if value is Some v then
         r ← setenv key v true;
         if r =? -1 then
           e ← gets w_errno; error 0 e ("Couldn't set " +:+ arg)
         else mret tt
       else mret tt);;
      do_export argv'
  end.

(** *** [do_unset] *)

Fixpoint do_unset (argv : list string) : Proc unit :=
  match argv with
  | [] => mret tt
  | arg :: argv' =>
      r ← unsetenv arg;
      (if r =? -1 then
         e ← gets w_errno; error 0 e ("Couldn't unset " +:+ arg)
       else mret tt);;
      do_unset argv'
  end.

(** *** [do_cd] *)

(** The first part of the function picks the directory and advances
    [argv]; [None] stands for the early [return]. *)
Definition do_cd (argv : list string) : Proc unit :=
  sel ← match argv with
        | [] =>
            dir ← getenv "HOME";
            match dir with
            | None => error 0 0 "HOME not set";; mret None
            | Some dir => mret (Some (dir, argv))
            end
        | dir :: argv' => mret (Some (dir, argv'))
        end;
  match sel with
  | None => mret tt
  | Some (dir, argv) =>
      if argv is _ :: _ then error 0 0 "Too many arguments"
      else
        r ← chdir dir;
        if r =? -1 then
          e ← gets w_errno; error 0 e ("Couldn't cd to " +:+ dir)
        else mret tt
  end.

(** *** [launch] *)

Definition launch (program : string) (argv : list string) : Proc unit :=
  pid ← fork;
  if pid =? -1 then
    e ← gets w_errno; error 0 e "Failed to fork"
  else if pid =? 0 then
    ec ← execvp program argv;
    if ec =? -1 then
      e ← gets w_errno;
      error EXIT_FAILURE e ("Failed to exec " +:+ program)
    else mret tt
  else
    '(r, wstatus) ← waitpid pid;
    if r =? -1 then
      e ← gets w_errno;
      error 0 e ("Failed to wait for child " +:+ fmt_d pid)
    else if WIFEXITED wstatus then
      printf ("Process exited with error code "
              +:+ fmt_d (WEXITSTATUS wstatus) +:+ nl)
    else if WIFSIGNALED wstatus then
      printf ("Process was terminated by signal "
              +:+ fmt_d (WTERMSIG wstatus) +:+ ": "
              +:+ strsignal libc (WTERMSIG wstatus) +:+ nl)
    else
      error EXIT_FAILURE 0
        "waitpid should have waited for the process termination, but it didn't".

(** *** [trim_newline] *)

Definition trim_newline (line : string) (len : Z) : string * Z :=
  if len <=? 0 then (line, len)
  else if String.get (Z.to_nat (len - 1)) line is Some "010"%char
       then (String.substring 0 (Z.to_nat (len - 1)) line, len - 1)
       else (line, len).

(** *** [main] *)

Record wordexp_t := { we_wordc : nat; we_wordv : list string }.

(** [wordexp (line, &p, flags)]: the return code and the new content of
    [p]; with WRDE_REUSE the words of the previous call are given up.  The
    call leaves the environment its expansions have assigned. *)
Definition wordexp (line : string) (flags : Z) : Proc (Z * wordexp_t) := λ w,
  let '(ec, ws) := wordexp_sys libc w line flags in
  Ret (ec, {| we_wordc := length ws; we_wordv := ws |})
      (set_env (wordexp_env libc w line flags) w).

Definition wordfree (p : wordexp_t) : Proc unit := modify count_wordfree.
Definition free_line : Proc unit := modify count_line_free.

Inductive control := Fallthrough | Continue | Break.

Definition main_wordexp_flags : Z :=
  Z.lor (Z.lor WRDE_REUSE WRDE_SHOWERR) WRDE_UNDEF.

(** The [switch] on the return code of [wordexp]. *)
Definition main_switch (ec : Z) : Proc control :=
  if ec =? 0 then mret Fallthrough
  else if ec =? WRDE_BADCHAR then
    error 0 0 "Illegal occurrence of newline or one of |, &, ;, <, >, (, ), {, }.";;
    mret Continue
  else if ec =? WRDE_BADVAL then
    error 0 0 "Undefined shell variable was referenced";; mret Continue
  else if ec =? WRDE_CMDSUB then
    error 0 0 "Command line substitution is prohibited";; mret Continue
  else if ec =? WRDE_NOSPACE then
    error 0 0 "Out of memory";; mret Continue
  else if ec =? WRDE_SYNTAX then
    error 0 0 "Syntax error: unbalanced parentheses, unmatched quotes etc";;
    mret Continue
  else
    error EXIT_FAILURE 0 ("Unexpected wordexp error code: " +:+ fmt_d ec);;
    mret Fallthrough.

(** The dispatch on the first word, from [if (p.we_wordc == 0)] on. *)
Definition main_dispatch (p : wordexp_t) : Proc control :=
  if (we_wordc p =? 0)%nat then mret Continue
  else
    let action := hd EmptyString (we_wordv p) in
    if String.eqb "export" action then
      do_export (tl (we_wordv p));; mret Continue
    else if String.eqb "unset" action then
      do_unset (tl (we_wordv p));; mret Continue
    else if String.eqb "exit" action then mret Break
    else if String.eqb "cd" action then
      do_cd (tl (we_wordv p));; mret Continue
    else
      launch (hd EmptyString (we_wordv p)) (we_wordv p);; mret Continue.

(** The body of the loop after a successful [getline] of [line]. *)
Definition main_body (line : string) (p : wordexp_t)
  : Proc (control * wordexp_t) :=
  let nread := Z.of_nat (String.length line) in
  let '(line, nread) := trim_newline line nread in
  '(ec, p) ← wordexp line main_wordexp_flags;
  c ← main_switch ec;
  match c with
  | Fallthrough => c' ← main_dispatch p; mret (c', p)
  | _ => mret (c, p)
  end.

(** Standard input is the sequence of lines [getline] will deliver and
    the way the stream ends: cleanly, or with a read error ([fault] is
    then the error number; a failed read is followed by no successful
    one).  A read error met in the middle of a line makes [getline]
    deliver the part read so far, without newline, and leaves the error
    indicator of the stream set from then on: [read_error_at] tells
    whether that happens at [line], which the lines [input'] follow. *)
Definition read_error_at (line : string) (input' : list string)
    (fault : option Z) : option Z :=
  match input', fault with
  | [], Some e => if ends_with_newline line then None else Some e
  | _, _ => None
  end.

(** The loop returns the expander state and the value [ferror (stdin)]
    has when it is left, be it at the end of the input or by [break]. *)
Fixpoint main_loop (input : list string) (fault : option Z)
    (p : wordexp_t) : Proc (wordexp_t * bool) :=
  prompt;;
  match input with
  | [] =>
      (if fault is Some e then modify (set_errno e) else mret tt);;
      printf nl;;
      mret (p, bool_decide (is_Some fault))
  | line :: input' =>
      let hit := read_error_at line input' fault in
      (if hit is Some e then modify (set_errno e) else mret tt);;
      '(c, p') ← main_body line p;
      match c with
      | Break => mret (p', bool_decide (is_Some hit))
      | _ => main_loop input' fault p'
      end
  end.

(** What follows the loop.  [main] has no [return]: reaching its end
    returns 0. *)
Definition main_epilogue (p : wordexp_t) (stdin_error : bool) : Proc Z :=
  (if stdin_error then
     e ← gets w_errno; error EXIT_FAILURE e "Failed to read next line"
   else mret tt);;
  wordfree p;;
  free_line;;
  mret 0.

Definition main (input : list string) (fault : option Z) : Proc Z :=
  '(_, p) ← wordexp EmptyString 0;
  '(p, stdin_error) ← main_loop input fault p;
  main_epilogue p stdin_error.

End Shell.

(** The exit status of the process: the argument of [exit], or the value
    [main] returns. *)
Definition exit_status (o : outcome Z) : option Z :=
  match o with
  | Ret s _ => Some s
  | Exited s _ => Some s
  | Replaced _ _ _ => None
  end.

(** The expander state [wordexp] leaves for the words [ws]. *)
Definition words (ws : list string) : wordexp_t :=
  {| we_wordc := length ws; we_wordv := ws |}.

(** ** A sample system

    A small, well-behaved C library on which the functions can be run:
    allocation never fails, the only directories are [/] and [/home/kid],
    every child exits with status 0, and [wordexp] splits at blanks,
    replaces a word of the form [$(...)] by the output of the command when
    WRDE_NOCMD is not among the flags and refuses it with WRDE_CMDSUB when
    it is; it assigns no variable. *)

Module Sample.

Fixpoint split_blank (s : string) (cur : string) : list string :=
  match s with
  | EmptyString => if String.eqb cur EmptyString then [] else [cur]
  | String c rest =>
      if Ascii.eqb c " "%char then
        (if String.eqb cur EmptyString then [] else [cur]) ++ split_blank rest EmptyString
      else split_blank rest (cur +:+ String c EmptyString)
  end.

Definition is_cmdsub (word : string) : bool := String.prefix "$(" word.

Definition wordexp_sample (w : World) (line : string) (flags : Z)
  : Z * list string :=
  let ws := split_blank line EmptyString in
  if existsb is_cmdsub ws then
    if Z.land flags WRDE_NOCMD =? 0 then
      (0, map (λ x, if is_cmdsub x then "kid" else x) ws)
    else (WRDE_CMDSUB, [])
  else (0, ws).

Definition chdir_sample (w : World) (path : string) : Z + string :=
  if String.eqb path "/" || String.eqb path "/home/kid" then inr path
  else inl 2.

Definition libc : Libc := {|
  strdup_ok := λ _ _, true;
  setenv_nomem := λ _ _ _, false;
  chdir_sys := chdir_sample;
  getcwd_fault := λ _, None;
  fork_sys := λ _, inr 4242;
  execvp_sys := λ _ _ _, None;
  waitpid_sys := λ _ _, inr 0;
  strsignal := λ _, "Unknown signal";
  wordexp_sys := wordexp_sample;
  wordexp_env := λ w _ _, w_env w
|}.

Definition world : World := {|
  w_env := {[ "HOME" := "/home/kid" ]};
  w_cwd := "/";
  w_errno := 0;
  w_stdout := EmptyString;
  w_stderr := [];
  w_line_frees := 0;
  w_wordfrees := 0
|}.

End Sample.

(** ** Vocabulary of the statements *)

Definition prompt_text (label : string) : string :=
  "┌[" +:+ label +:+ "]" +:+ nl +:+ "└─> ".

Definition builtins : list string := ["export"; "unset"; "exit"; "cd"].

(** The world [prompt] leaves. *)
Definition after_prompt (libc : Libc) (w : World) : World :=
  final_world (prompt libc w).

(** The text [wordexp] is given for a line read by [getline]. *)
Definition trimmed (line : string) : string :=
  fst (trim_newline line (Z.of_nat (String.length line))).

(** The world in which the body of the loop runs on [line]: after the
    prompt and after [getline], which has set [errno] when it met the read
    error of the stream at that line. *)
Definition at_body (libc : Libc) (line : string) (rest : list string)
    (fault : option Z) (w : World) : World :=
  match read_error_at line rest fault with
  | Some e => set_errno e (after_prompt libc w)
  | None => after_prompt libc w
  end.

(** The world [wordexp] leaves when [main] has it expand [line]. *)
Definition expanded (libc : Libc) (line : string) (w : World) : World :=
  set_env (wordexp_env libc w (trimmed line) main_wordexp_flags) w.

(** [main] from the top of the loop on: the loop and what follows it. *)
Definition main_from (libc : Libc) (input : list string) (fault : option Z)
    (p : wordexp_t) : Proc Z :=
  '(p, stdin_error) ← main_loop libc input fault p;
  main_epilogue p stdin_error.

Definition frees (w : World) : nat * nat := (w_line_frees w, w_wordfrees w).

(** A computation that releases neither resource, and that ends the
    process, if it does, with EXIT_FAILURE. *)
Definition no_release {A} (m : Proc A) : Prop :=
  ∀ w, match m w with
       | Ret _ w' | Replaced _ _ w' => frees w' = frees w
       | Exited s w' => s = EXIT_FAILURE ∧ frees w' = frees w
       end.

(** POSIX on command substitution: [wordexp] answers WRDE_CMDSUB only to
    a call that carries WRDE_NOCMD. *)
Definition wordexp_posix_nocmd (libc : Libc) : Prop :=
  ∀ (w : World) (line : string) (flags : Z),
    Z.land flags WRDE_NOCMD = 0 →
    fst (wordexp_sys libc w line flags) ≠ WRDE_CMDSUB.

(** Both resources released exactly once between [w] and the end [o]. *)
Definition released_once (w : World) (o : outcome Z) : Prop :=
  w_line_frees (final_world o) = S (w_line_frees w) ∧
  w_wordfrees (final_world o) = S (w_wordfrees w).

(** ** Systems that fail

    Variants of the sample system in which one call fails, to run the
    error paths. *)

Module Faulty.

(** No memory: [strdup] and [setenv] fail. *)
Definition no_memory : Libc := {|
  strdup_ok := λ _ _, false;
  setenv_nomem := λ _ _ _, true;
  chdir_sys := chdir_sys Sample.libc;
  getcwd_fault := getcwd_fault Sample.libc;
  fork_sys := fork_sys Sample.libc;
  execvp_sys := execvp_sys Sample.libc;
  waitpid_sys := waitpid_sys Sample.libc;
  strsignal := strsignal Sample.libc;
  wordexp_sys := wordexp_sys Sample.libc;
  wordexp_env := wordexp_env Sample.libc
|}.

(** The process table and what follows [fork]: [fork] answers [forked],
    [execvp] answers [exec] and [waitpid] answers [waited]. *)
Definition spawning (forked : Z + Z) (exec : option Z) (waited : Z + Z)
  : Libc := {|
  strdup_ok := strdup_ok Sample.libc;
  setenv_nomem := setenv_nomem Sample.libc;
  chdir_sys := chdir_sys Sample.libc;
  getcwd_fault := getcwd_fault Sample.libc;
  fork_sys := λ _, forked;
  execvp_sys := λ _ _ _, exec;
  waitpid_sys := λ _ _, waited;
  strsignal := strsignal Sample.libc;
  wordexp_sys := wordexp_sys Sample.libc;
  wordexp_env := wordexp_env Sample.libc
|}.

(** [wordexp] answers [ec] and leaves the words [ws], whatever the line. *)
Definition expanding (ec : Z) (ws : list string) : Libc := {|
  strdup_ok := strdup_ok Sample.libc;
  setenv_nomem := setenv_nomem Sample.libc;
  chdir_sys := chdir_sys Sample.libc;
  getcwd_fault := getcwd_fault Sample.libc;
  fork_sys := fork_sys Sample.libc;
  execvp_sys := execvp_sys Sample.libc;
  waitpid_sys := waitpid_sys Sample.libc;
  strsignal := strsignal Sample.libc;
  wordexp_sys := λ _ _ _, (ec, ws);
  wordexp_env := wordexp_env Sample.libc
|}.

(** [wordexp] refuses every line with [ec] after it has assigned [value]
    to [name], as it does for [${name:=value} |]. *)
Definition assigning (ec : Z) (name value : string) : Libc := {|
  strdup_ok := strdup_ok Sample.libc;
  setenv_nomem := setenv_nomem Sample.libc;
  chdir_sys := chdir_sys Sample.libc;
  getcwd_fault := getcwd_fault Sample.libc;
  fork_sys := fork_sys Sample.libc;
  execvp_sys := execvp_sys Sample.libc;
  waitpid_sys := waitpid_sys Sample.libc;
  strsignal := strsignal Sample.libc;
  wordexp_sys := λ _ _ _, (ec, []);
  wordexp_env := λ w _ _, <[name := value]> (w_env w)
|}.

(** [wordexp] reads the environment: a word [$NAME] is replaced by the
    value of NAME, and the line is refused with WRDE_BADVAL when NAME is
    not bound (WRDE_UNDEF). *)
Definition expand_variable (w : World) (word : string) : option string :=
  match word with
  | String "$" name => w_env w !! name
  | _ => Some word
  end.

Definition wordexp_undef (w : World) (line : string) (flags : Z)
  : Z * list string :=
  match mapM (expand_variable w) (Sample.split_blank line EmptyString) with
  | Some ws => (0, ws)
  | None => (WRDE_BADVAL, [])
  end.

Definition reading_variables : Libc := {|
  strdup_ok := strdup_ok Sample.libc;
  setenv_nomem := setenv_nomem Sample.libc;
  chdir_sys := chdir_sys Sample.libc;
  getcwd_fault := getcwd_fault Sample.libc;
  fork_sys := fork_sys Sample.libc;
  execvp_sys := execvp_sys Sample.libc;
  waitpid_sys := waitpid_sys Sample.libc;
  strsignal := strsignal Sample.libc;
  wordexp_sys := wordexp_undef;
  wordexp_env := wordexp_env Sample.libc
|}.

End Faulty.

(** A computation that leaves the observation [f] of the world as it
    was, however it ends. *)
Definition keeps {A B} (f : World → B) (m : Proc A) : Prop :=
  ∀ w, f (final_world (m w)) = f w.

(** The key an argument of [export] names: what [strsep] returns. *)
Definition export_key (arg : string) : string := fst (strsep arg eq_sign).

(** A system on which memory never runs out. *)
Definition enough_memory (libc : Libc) : Prop :=
  (∀ w s, strdup_ok libc w s = true) ∧
  (∀ w k v, setenv_nomem libc w k v = false).

(** A session whose every line, in the world in which the loop comes to
    it, expands to no words or is refused by [wordexp] with one of its five
    error codes.  The world of the next line is the one the body of the
    loop leaves. *)
Fixpoint all_refused (libc : Libc) (input : list string) (w : World)
  : Prop :=
  match input with
  | [] => True
  | line :: rest =>
      let r := wordexp_sys libc (after_prompt libc w) (trimmed line)
                 main_wordexp_flags in
      (r = (0, [])
       ∨ fst r ∈ [WRDE_NOSPACE; WRDE_BADCHAR; WRDE_BADVAL; WRDE_CMDSUB;
                  WRDE_SYNTAX])
      ∧ all_refused libc rest
          (final_world (main_body libc line (words []) (after_prompt libc w)))
  end.

(** * Properties *)

(** ** Tactics and basic facts *)

Ltac proc_unfold :=
  unfold mbind, mret, Proc_bind, Proc_ret, error, printf,
    strdup, getenv, setenv, unsetenv, chdir, getcwd, fork, execvp, waitpid,
    wordexp, wordfree, free_line, gets, modify in *.

Lemma set_env_same (w : World) : set_env (w_env w) w = w.
Proof. by destruct w. Qed.

Lemma strchr_app (a b : string) (c : ascii) :
  strchr (a +:+ b) c = strchr a c || strchr b c.
Proof.
  induction a as [|x a IH]; simpl; [done|].
  rewrite IH. by destruct (Ascii.eqb x c).
Qed.

(** [strsep] cuts at the first delimiter and nowhere else. *)
Lemma strsep_found (key value : string) (c : ascii) :
  strchr key c = false →
  strsep (key +:+ String c value) c = (key, Some value).
Proof.
  induction key as [|x key IH]; simpl.
  - intros _. by rewrite Ascii.eqb_refl.
  - destruct (Ascii.eqb x c); [done|]. simpl. intros H. by rewrite IH.
Qed.

Lemma strsep_absent (s : string) (c : ascii) :
  strchr s c = false → strsep s c = (s, None).
Proof.
  induction s as [|x s IH]; simpl; [done|].
  destruct (Ascii.eqb x c); [done|]. simpl. intros H. by rewrite IH.
Qed.

Lemma strsep_inv (s key : string) (r : option string) (c : ascii) :
  strsep s c = (key, r) →
  strchr key c = false ∧
  match r with
  | Some value => s = key +:+ String c value
  | None => s = key ∧ strchr s c = false
  end.
Proof.
  revert key r. induction s as [|x s IH]; simpl; intros key r.
  - intros [= <- <-]. done.
  - destruct (Ascii.eqb x c) eqn:E.
    + intros [= <- <-]. apply Ascii.eqb_eq in E as ->. done.
    + destruct (strsep s c) as [tok r'] eqn:Es. intros [= <- <-].
      destruct (IH _ _ eq_refl) as [Hk Hr]. simpl. rewrite E, Hk.
      split; [done|]. destruct r' as [v|].
      * by rewrite Hr.
      * destruct Hr as [-> Hs]. by rewrite Hk.
Qed.

Lemma valid_name_spec (name : string) :
  valid_name name = true ↔ name ≠ EmptyString ∧ strchr name eq_sign = false.
Proof.
  unfold valid_name. rewrite andb_true_iff, !negb_true_iff.
  rewrite String.eqb_neq. done.
Qed.

(** [strlcpy] copies the whole source when the destination has room for
    it and its terminator. *)
Lemma strlcpy_loop_fits (src : string) (size : nat) :
  (String.length src < size)%nat → strlcpy_loop src size = src.
Proof.
  revert size. induction src as [|c src IH]; intros size H.
  - by destruct size.
  - simpl in H. destruct size as [|[|size]]; [lia|lia|].
    simpl. f_equal. apply IH. lia.
Qed.

Lemma strlcpy_fits (dst src : string) (size : nat) :
  (String.length src < size)%nat →
  strlcpy dst src size = (src, String.length src).
Proof.
  intros H. unfold strlcpy. destruct size; [lia|]. simpl negb. cbv iota.
  by rewrite strlcpy_loop_fits.
Qed.

(** What [strlcpy] stores never needs more than [size] bytes. *)
Lemma strlcpy_loop_bound (src : string) (size : nat) :
  (String.length (strlcpy_loop src size) <= pred size)%nat.
Proof.
  revert size. induction src as [|c src IH]; intros [|[|size]]; simpl; try lia.
  specialize (IH (S size)). simpl in IH. lia.
Qed.

Lemma string_app_assoc (a b c : string) : (a +:+ b) +:+ c = a +:+ (b +:+ c).
Proof.
  induction a as [|x a IH]; [done|].
  change (String x ((a +:+ b) +:+ c) = String x (a +:+ b +:+ c)).
  by rewrite IH.
Qed.

(** A few runs of the text functions. *)
Example strsep_cuts_once : strsep "A=b=c" eq_sign = ("A", Some "b=c").
Proof. reflexivity. Qed.

Example strsep_no_delimiter : strsep "NAME" eq_sign = ("NAME", None).
Proof. reflexivity. Qed.

Example strlcpy_truncates : strlcpy "old" "abcdef" 4 = ("abc", 6%nat).
Proof. reflexivity. Qed.

Example strlcpy_size_zero : strlcpy "old" "abcdef" 0 = ("old", 6%nat).
Proof. reflexivity. Qed.

Example trim_newline_strips_one :
  trim_newline ("ls" +:+ nl +:+ nl) 4 = ("ls" +:+ nl, 3).
Proof. reflexivity. Qed.

Example trim_newline_keeps : trim_newline "ls" 2 = ("ls", 2).
Proof. reflexivity. Qed.

(** ** The prompt *)

(** C8. [prompt] always returns to its caller, touches nothing but
    standard output, standard error and [errno], and writes the two-line
    prompt with one of three labels: the working directory when [getcwd]
    delivers it (it then needs at most 256 bytes with its terminator), the
    placeholder for a path that is too long when [getcwd] fails with ERANGE,
    and otherwise the placeholder for a failed query, after one
    diagnostic that does not end the process. *)
Theorem prompt_three_outcomes (libc : Libc) (w : World) :
  ∃ label diags errno',
    prompt libc w =
      Ret tt (mkWorld (w_env w) (w_cwd w) errno'
                (w_stdout w +:+ prompt_text label) (w_stderr w ++ diags)
                (w_line_frees w) (w_wordfrees w)) ∧
    ((getcwd_fault libc w = None ∧
      (String.length (w_cwd w) < MAX_PATH_AT_PROMPT)%nat ∧
      label = w_cwd w ∧ diags = [])
     ∨ (((getcwd_fault libc w = None ∧
          (MAX_PATH_AT_PROMPT <= String.length (w_cwd w))%nat)
         ∨ getcwd_fault libc w = Some ERANGE) ∧
        label = "!Path too long to be shown!" ∧ diags = [])
     ∨ (∃ e, getcwd_fault libc w = Some e ∧ e ≠ ERANGE ∧
             label = "!Failed to get CWD!" ∧
             diags = [Diag "Couldn't get cwd" e])).
Proof.
  unfold prompt. proc_unfold.
  destruct (getcwd_fault libc w) as [e|] eqn:Hf.
  - cbn [w_errno set_errno]. destruct (e =? ERANGE) eqn:He.
    + apply Z.eqb_eq in He as ->.
      exists "!Path too long to be shown!", [], ERANGE. split.
      * unfold put_stdout, set_errno, prompt_text. cbn.
        by rewrite app_nil_r, !string_app_assoc.
      * right; left. auto.
    + apply Z.eqb_neq in He.
      exists "!Failed to get CWD!", [Diag "Couldn't get cwd" e], e. split.
      * unfold put_stdout, put_stderr, set_errno, prompt_text. cbn.
        by rewrite !string_app_assoc.
      * right; right. eauto.
  - destruct (String.length (w_cwd w) <? MAX_PATH_AT_PROMPT)%nat eqn:Hl.
    + apply Nat.ltb_lt in Hl.
      exists (w_cwd w), [], (w_errno w). split.
      * unfold put_stdout, prompt_text. cbn.
        by rewrite app_nil_r, !string_app_assoc.
      * left. auto.
    + apply Nat.ltb_ge in Hl. cbn [w_errno set_errno].
      exists "!Path too long to be shown!", [], ERANGE. split.
      * unfold put_stdout, set_errno, prompt_text. cbn.
        by rewrite app_nil_r, !string_app_assoc.
      * right; left. auto.
Qed.

(** ** [export] *)

(** One step of the loop in [do_export], for an argument [strdup] can copy:
    what is done to the world before the remaining arguments are treated. *)
Lemma do_export_cons (libc : Libc) (arg : string) (rest : list string)
    (w : World) :
  strdup_ok libc w arg = true →
  do_export libc (arg :: rest) w =
    match strsep arg eq_sign with
    | (key, Some value) =>
        match setenv libc key value true w with
        | Ret r w1 =>
            if r =? -1 then
              do_export libc rest
                (put_stderr (Diag ("Couldn't set " +:+ arg) (w_errno w1)) w1)
            else do_export libc rest w1
        | Exited s w1 => Exited s w1
        | Replaced p av w1 => Replaced p av w1
        end
    | (_, None) => do_export libc rest w
    end.
Proof.
  intros Hdup. cbn [do_export]. proc_unfold. rewrite Hdup.
  cbn [default]. unfold id.
  destruct (strsep arg eq_sign) as [key [value|]]; [|done].
  destruct (negb (valid_name key)); [done|].
  destruct (setenv_nomem libc w key value); [done|].
  done.
Qed.

(** C3. For each argument of [export] (that [strdup] can copy): without
    '=' the argument changes nothing at all; with one, the argument is cut
    at its first '=' and [setenv] is asked to bind the left part to the
    right part, replacing any earlier value; when that fails, a diagnostic
    naming the argument is written and the environment stays as it was.  In
    every case the remaining arguments are treated next. *)
Theorem do_export_each_argument (libc : Libc) (arg : string)
    (rest : list string) (w : World) :
  strdup_ok libc w arg = true →
  (strchr arg eq_sign = false →
   do_export libc (arg :: rest) w = do_export libc rest w) ∧
  (∀ key value : string,
     arg = key +:+ "=" +:+ value → strchr key eq_sign = false →
     strsep arg eq_sign = (key, Some value) ∧
     (key ≠ EmptyString → setenv_nomem libc w key value = false →
      do_export libc (arg :: rest) w =
        do_export libc rest (set_env (<[key := value]> (w_env w)) w)) ∧
     (key = EmptyString ∨ setenv_nomem libc w key value = true →
      ∃ e w1,
        do_export libc (arg :: rest) w = do_export libc rest w1 ∧
        w1 = put_stderr (Diag ("Couldn't set " +:+ arg) e) (set_errno e w) ∧
        w_env w1 = w_env w)).
Proof.
  intros Hdup. split.
  - intros Hno. rewrite do_export_cons by done. by rewrite strsep_absent.
  - intros key value -> Hkey.
    assert (Hsep : strsep (key +:+ "=" +:+ value) eq_sign = (key, Some value))
      by (by apply strsep_found).
    split; [done|]. split.
    + intros Hne Hmem. rewrite do_export_cons, Hsep by done.
      unfold setenv.
      assert (valid_name key = true) as -> by (by apply valid_name_spec).
      by rewrite Hmem.
    + intros Hfail. rewrite do_export_cons, Hsep by done. unfold setenv.
      destruct (valid_name key) eqn:Hv; cbn [negb].
      * destruct Hfail as [->|Hmem]; [done|]. rewrite Hmem.
        by exists ENOMEM, (put_stderr (Diag ("Couldn't set " +:+ key +:+ "=" +:+ value) ENOMEM) (set_errno ENOMEM w)).
      * by exists EINVAL, (put_stderr (Diag ("Couldn't set " +:+ key +:+ "=" +:+ value) EINVAL) (set_errno EINVAL w)).
Qed.

Lemma do_export_each_argument_witness :
  do_export Sample.libc ["FOO=bar"; "BAZ"] Sample.world =
    Ret tt (set_env (<["FOO" := "bar"]> (w_env Sample.world)) Sample.world).
Proof.
  destruct (do_export_each_argument Sample.libc "FOO=bar" ["BAZ"]
              Sample.world eq_refl) as [_ H].
  destruct (H "FOO" "bar" eq_refl eq_refl) as (_ & Hset & _).
  rewrite Hset; [|done|done].
  destruct (do_export_each_argument Sample.libc "BAZ" []
              (set_env (<["FOO" := "bar"]> (w_env Sample.world)) Sample.world)
              eq_refl) as [Hskip _].
  rewrite Hskip; reflexivity.
Defined.

(** When [strdup] cannot copy the argument the process ends at once. *)
Lemma do_export_strdup_fatal (libc : Libc) (arg : string)
    (rest : list string) (w : World) :
  strdup_ok libc w arg = false →
  do_export libc (arg :: rest) w =
    Exited EXIT_FAILURE
      (put_stderr (Diag "Couldn't copy a string" ENOMEM) (set_errno ENOMEM w)).
Proof. intros Hdup. cbn [do_export]. proc_unfold. by rewrite Hdup. Qed.

(** C10. An argument of [export] that begins with '=': the key computed
    by [strsep] is empty, [setenv] refuses it (EINVAL), one diagnostic
    naming the argument is written, the environment is unchanged and the
    remaining arguments are treated next. *)
Theorem do_export_empty_key (libc : Libc) (value : string)
    (rest : list string) (w : World) :
  strdup_ok libc w ("=" +:+ value) = true →
  strsep ("=" +:+ value) eq_sign = (EmptyString, Some value) ∧
  setenv libc EmptyString value true w = Ret (-1) (set_errno EINVAL w) ∧
  ∃ w1,
    do_export libc (("=" +:+ value) :: rest) w = do_export libc rest w1 ∧
    w_env w1 = w_env w ∧
    w_stderr w1 = w_stderr w ++ [Diag ("Couldn't set =" +:+ value) EINVAL] ∧
    w_stdout w1 = w_stdout w ∧ w_cwd w1 = w_cwd w.
Proof.
  intros Hdup. split; [|split]; [done|done|].
  exists (put_stderr (Diag ("Couldn't set =" +:+ value) EINVAL)
            (set_errno EINVAL w)).
  split; [|done]. by rewrite do_export_cons.
Qed.

Lemma do_export_empty_key_witness :
  ∃ w1,
    do_export Sample.libc ["=V"; "K=1"] Sample.world
      = do_export Sample.libc ["K=1"] w1 ∧
    w_env w1 = w_env Sample.world ∧
    w_stderr w1 = [Diag "Couldn't set =V" EINVAL].
Proof.
  destruct (do_export_empty_key Sample.libc "V" ["K=1"] Sample.world eq_refl)
    as (_ & _ & w1 & H1 & H2 & H3 & _).
  exists w1. split; [exact H1|]. split; [exact H2|exact H3].
Defined.

(** ** [unset] *)

(** One step of the loop in [do_unset]. *)
Lemma do_unset_cons (arg : string) (rest : list string)
    (w : World) :
  do_unset (arg :: rest) w =
    if valid_name arg
    then do_unset rest (set_env (delete arg (w_env w)) w)
    else do_unset rest
           (put_stderr (Diag ("Couldn't unset " +:+ arg) EINVAL)
              (set_errno EINVAL w)).
Proof.
  cbn [do_unset]. proc_unfold. by destruct (valid_name arg).
Qed.

Lemma do_unset_nil (w : World) : do_unset [] w = Ret tt w.
Proof. reflexivity. Qed.

Lemma do_unset_returns (argv : list string) (w : World) :
  ∃ w', do_unset argv w = Ret tt w'.
Proof.
  revert w. induction argv as [|arg argv IH]; intros w.
  - by exists w.
  - rewrite do_unset_cons. destruct (valid_name arg); apply IH.
Qed.

(** C9. [unset] of a key (a name that is not empty and has no '=') that
    the environment does not hold changes nothing and reports nothing;
    hence two [unset] of one key in a row leave the world that one leaves,
    and for every argument whatever the environment after two equals the
    one after one.  An argument [unsetenv] refuses only adds a diagnostic:
    the remaining arguments are treated next and [do_unset] always returns
    to the loop. *)
Theorem do_unset_idempotent :
  (∀ (key : string) (rest : list string) (w : World),
     valid_name key = true → w_env w !! key = None →
     do_unset (key :: rest) w = do_unset rest w) ∧
  (∀ (key : string) (w : World),
     valid_name key = true →
     (do_unset [key];; do_unset [key]) w = do_unset [key] w) ∧
  (∀ (arg : string) (w : World),
     w_env (final_world ((do_unset [arg];; do_unset [arg]) w))
     = w_env (final_world (do_unset [arg] w))) ∧
  (∀ (arg : string) (rest : list string) (w : World),
     ∃ w1, do_unset (arg :: rest) w = do_unset rest w1 ∧
           (valid_name arg = false →
            w_env w1 = w_env w ∧
            w_stderr w1
            = w_stderr w ++ [Diag ("Couldn't unset " +:+ arg) EINVAL])) ∧
  (∀ (argv : list string) (w : World),
     returns (do_unset argv w) = true).
Proof.
  split; [|split; [|split; [|split]]].
  - intros key rest w Hv Habs. rewrite do_unset_cons, Hv.
    by rewrite delete_id, set_env_same.
  - intros key w Hv. unfold mbind, Proc_bind.
    rewrite !do_unset_cons, Hv, !do_unset_nil.
    rewrite do_unset_cons, Hv, do_unset_nil.
    unfold set_env. cbn. by rewrite delete_delete_eq.
  - intros arg w. unfold mbind, Proc_bind.
    rewrite !do_unset_cons. destruct (valid_name arg) eqn:Hv.
    + rewrite !do_unset_nil, do_unset_cons, Hv, do_unset_nil.
      cbn. by rewrite delete_delete_eq.
    + rewrite !do_unset_nil, do_unset_cons, Hv, do_unset_nil. done.
  - intros arg rest w. rewrite do_unset_cons.
    destruct (valid_name arg); eexists; (split; [reflexivity|done]).
  - intros argv w. by destruct (do_unset_returns argv w) as [w' ->].
Qed.

Lemma do_unset_idempotent_witness :
  do_unset ["FOO"; "BAR"] Sample.world = Ret tt Sample.world ∧
  (do_unset ["HOME"];; do_unset ["HOME"]) Sample.world
  = do_unset ["HOME"] Sample.world.
Proof.
  destruct do_unset_idempotent as (Habsent & Htwice & _).
  split.
  - rewrite (Habsent "FOO" ["BAR"] Sample.world); [|reflexivity|reflexivity].
    rewrite (Habsent "BAR" [] Sample.world); reflexivity.
  - apply Htwice. reflexivity.
Defined.

(** ** [cd] *)

(** C4. [cd] without argument and without HOME: one diagnostic, nothing
    else changes.  Without argument and with HOME: exactly what [cd] does
    with the value of HOME as its only argument.  With one argument: the
    process moves where [chdir] takes it, or, when [chdir] fails, one
    diagnostic naming the directory and the error is written and the working
    directory stays.  With more arguments: one diagnostic, nothing else
    changes.  [do_cd] returns to the loop in every case. *)
Theorem do_cd_cases (libc : Libc) (w : World) :
  (w_env w !! "HOME" = None →
   do_cd libc [] w = Ret tt (put_stderr (Diag "HOME not set" 0) w)) ∧
  (∀ home : string, w_env w !! "HOME" = Some home →
     do_cd libc [] w = do_cd libc [home] w) ∧
  (∀ dir : string,
     match chdir_sys libc w dir with
     | inr d => do_cd libc [dir] w = Ret tt (set_cwd d w)
     | inl e =>
         do_cd libc [dir] w =
           Ret tt (put_stderr (Diag ("Couldn't cd to " +:+ dir) e)
                     (set_errno e w)) ∧
         w_cwd (final_world (do_cd libc [dir] w)) = w_cwd w
     end) ∧
  (∀ (a b : string) (rest : list string),
     do_cd libc (a :: b :: rest) w
     = Ret tt (put_stderr (Diag "Too many arguments" 0) w)) ∧
  (∀ argv : list string, returns (do_cd libc argv w) = true).
Proof.
  split; [|split; [|split; [|split]]].
  - intros Hhome. unfold do_cd. proc_unfold. by rewrite Hhome.
  - intros home Hhome. unfold do_cd. proc_unfold. by rewrite Hhome.
  - intros dir. unfold do_cd. proc_unfold.
    by destruct (chdir_sys libc w dir).
  - done.
  - intros [|a [|b rest]]; [| |done].
    + unfold do_cd. proc_unfold.
      destruct (w_env w !! "HOME") as [home|]; [|done].
      by destruct (chdir_sys libc w home).
    + unfold do_cd. proc_unfold. by destruct (chdir_sys libc w a).
Qed.

Lemma do_cd_cases_witness :
  do_cd Sample.libc [] Sample.world = Ret tt (set_cwd "/home/kid" Sample.world)
  ∧ do_cd Sample.libc [] (set_env ∅ Sample.world)
    = Ret tt (put_stderr (Diag "HOME not set" 0) (set_env ∅ Sample.world)).
Proof.
  split.
  - destruct (do_cd_cases Sample.libc Sample.world) as (_ & Hhome & Hone & _).
    rewrite (Hhome "/home/kid" eq_refl). exact (Hone "/home/kid").
  - destruct (do_cd_cases Sample.libc (set_env ∅ Sample.world)) as (Hno & _).
    apply Hno. reflexivity.
Defined.

(** ** [launch] *)

(** The wait statuses of the kernel: [code * 256] for a child that called
    [exit (code)]; the signal number, plus 128 when a core was dumped, for a
    child killed by a signal; [sig * 256 + 127] for a stopped child. *)
Lemma wait_status_exited (code : Z) :
  0 <= code < 256 →
  WIFEXITED (code * 256) = true ∧ WEXITSTATUS (code * 256) = code.
Proof.
  intros H.
  assert (Hall : forallb (λ c, WIFEXITED (c * 256)
                               && (WEXITSTATUS (c * 256) =? c))
                   (map Z.of_nat (seq 0 256)) = true) by (by vm_compute).
  rewrite forallb_forall in Hall.
  specialize (Hall code). rewrite andb_true_iff, Z.eqb_eq in Hall.
  apply Hall, in_map_iff. exists (Z.to_nat code).
  split; [lia|]. apply in_seq. lia.
Qed.

Lemma wait_status_signaled (sig core : Z) :
  1 <= sig <= 126 → 0 <= core <= 1 →
  WIFEXITED (sig + 128 * core) = false ∧
  WIFSIGNALED (sig + 128 * core) = true ∧
  WTERMSIG (sig + 128 * core) = sig.
Proof.
  intros Hs Hc.
  assert (Hall : forallb (λ s, forallb (λ c,
                    negb (WIFEXITED (s + 128 * c))
                    && WIFSIGNALED (s + 128 * c)
                    && (WTERMSIG (s + 128 * c) =? s)) [0; 1])
                   (map Z.of_nat (seq 1 126)) = true) by (by vm_compute).
  rewrite forallb_forall in Hall.
  assert (Hin : In sig (map Z.of_nat (seq 1 126))).
  { apply in_map_iff. exists (Z.to_nat sig). split; [lia|]. apply in_seq. lia. }
  specialize (Hall sig Hin). rewrite forallb_forall in Hall.
  assert (Hcin : In core [0; 1]) by (simpl; lia).
  specialize (Hall core Hcin).
  rewrite !andb_true_iff, negb_true_iff, Z.eqb_eq in Hall. tauto.
Qed.

(** C6. In the parent, once [waitpid] has delivered the status of the
    child: a child that exited with [code] is reported on standard output
    with that number; a child killed by signal [sig] is reported with the
    number and the text [strsignal] gives for it; and a status that is
    neither ends the whole process with EXIT_FAILURE after a diagnostic. *)
Theorem launch_reports_termination (libc : Libc) (program : string)
    (argv : list string) (w : World) (pid st : Z) :
  fork_sys libc w = inr pid → pid ≠ -1 → pid ≠ 0 →
  waitpid_sys libc w pid = inr st →
  (∀ code, 0 <= code < 256 → st = code * 256 →
     launch libc program argv w =
       Ret tt (put_stdout ("Process exited with error code "
                           +:+ fmt_d code +:+ nl) w)) ∧
  (∀ sig core, 1 <= sig <= 126 → 0 <= core <= 1 → st = sig + 128 * core →
     launch libc program argv w =
       Ret tt (put_stdout ("Process was terminated by signal "
                           +:+ fmt_d sig +:+ ": "
                           +:+ strsignal libc sig +:+ nl) w)) ∧
  (WIFEXITED st = false → WIFSIGNALED st = false →
     launch libc program argv w =
       Exited EXIT_FAILURE
         (put_stderr
            (Diag "waitpid should have waited for the process termination, but it didn't" 0)
            w)).
Proof.
  intros Hfork Hp1 Hp0 Hwait.
  assert (Hrun : launch libc program argv w =
            if WIFEXITED st then
              Ret tt (put_stdout ("Process exited with error code "
                                  +:+ fmt_d (WEXITSTATUS st) +:+ nl) w)
            else if WIFSIGNALED st then
              Ret tt (put_stdout ("Process was terminated by signal "
                                  +:+ fmt_d (WTERMSIG st) +:+ ": "
                                  +:+ strsignal libc (WTERMSIG st) +:+ nl) w)
            else
              Exited EXIT_FAILURE
                (put_stderr
                   (Diag "waitpid should have waited for the process termination, but it didn't" 0)
                   w)).
  { unfold launch. proc_unfold. rewrite Hfork.
    apply Z.eqb_neq in Hp1, Hp0. rewrite Hp1, Hp0, Hwait, Hp1.
    destruct (WIFEXITED st); [done|]. by destruct (WIFSIGNALED st). }
  rewrite Hrun. split; [|split].
  - intros code Hc ->. destruct (wait_status_exited code Hc) as [-> ->]. done.
  - intros sig core Hs Hc ->.
    destruct (wait_status_signaled sig core Hs Hc) as (-> & -> & ->). done.
  - by intros -> ->.
Qed.

Lemma launch_reports_termination_witness :
  launch Sample.libc "true" ["true"] Sample.world
  = Ret tt (put_stdout ("Process exited with error code 0" +:+ nl)
              Sample.world).
Proof.
  destruct (launch_reports_termination Sample.libc "true" ["true"]
              Sample.world 4242 0 eq_refl) as (Hexit & _);
    [discriminate | discriminate | reflexivity |].
  apply (Hexit 0); [lia | reflexivity].
Defined.

(** ** The dispatcher *)

Lemma prompt_returns (libc : Libc) (w : World) :
  prompt libc w = Ret tt (after_prompt libc w).
Proof.
  unfold after_prompt, prompt. proc_unfold.
  destruct (getcwd_fault libc w) as [e|].
  - cbn [w_errno set_errno]. by destruct (e =? ERANGE).
  - by destruct (String.length (w_cwd w) <? MAX_PATH_AT_PROMPT)%nat.
Qed.

Lemma main_body_unfold (libc : Libc) (line : string) (p : wordexp_t)
    (w : World) :
  main_body libc line p w =
    let '(ec, ws) := wordexp_sys libc w (trimmed line) main_wordexp_flags in
    match main_switch ec (expanded libc line w) with
    | Ret Fallthrough w1 =>
        match main_dispatch libc (words ws) w1 with
        | Ret c w2 => Ret (c, words ws) w2
        | Exited s w2 => Exited s w2
        | Replaced pr av w2 => Replaced pr av w2
        end
    | Ret c w1 => Ret (c, words ws) w1
    | Exited s w1 => Exited s w1
    | Replaced pr av w1 => Replaced pr av w1
    end.
Proof.
  unfold main_body, expanded, trimmed.
  destruct (trim_newline line (Z.of_nat (String.length line))) as [l n].
  cbn [fst]. unfold wordexp at 1, mbind at 1, Proc_bind at 1.
  destruct (wordexp_sys libc w l main_wordexp_flags) as [ec ws].
  unfold mbind at 1, Proc_bind at 1.
  destruct (main_switch ec _) as [[| |] w1| |]; try done.
Qed.

(** One turn of the loop on a line [getline] delivered. *)
Lemma main_loop_cons (libc : Libc) (line : string) (rest : list string)
    (fault : option Z) (p : wordexp_t) (w : World) :
  main_loop libc (line :: rest) fault p w =
    match main_body libc line p (at_body libc line rest fault w) with
    | Ret (Break, p') w' =>
        Ret (p', bool_decide (is_Some (read_error_at line rest fault))) w'
    | Ret (_, p') w' => main_loop libc rest fault p' w'
    | Exited s w' => Exited s w'
    | Replaced pr av w' => Replaced pr av w'
    end.
Proof.
  cbn [main_loop]. unfold at_body, mbind, Proc_bind.
  rewrite prompt_returns.
  destruct (read_error_at line rest fault) as [e|]; unfold modify, mret,
    Proc_ret;
    match goal with
    | |- context [main_body libc line p ?v] =>
        destruct (main_body libc line p v) as [[[| |] p'] w'| |]
    end; done.
Qed.

(** C5. The dispatcher on the words of a line.  No word: nothing is done
    and the loop goes on with the next line.  Otherwise the first word
    selects, by exact comparison, the handler of [export], [unset], [exit]
    or [cd], which receives the words after the first; any other first
    word is launched as a program, with all the words, the first one
    included, as its argument vector. *)
Theorem main_dispatch_cases (libc : Libc) (w : World) :
  main_dispatch libc (words []) w = Ret Continue w ∧
  (∀ (line : string) (rest : list string) (fault : option Z) (p : wordexp_t),
     wordexp_sys libc (at_body libc line rest fault w) (trimmed line)
       main_wordexp_flags
     = (0, []) →
     main_loop libc (line :: rest) fault p w
     = main_loop libc rest fault (words [])
         (expanded libc line (at_body libc line rest fault w))) ∧
  (∀ args : list string,
     main_dispatch libc (words ("export" :: args)) w
     = (do_export libc args;; mret Continue) w) ∧
  (∀ args : list string,
     main_dispatch libc (words ("unset" :: args)) w
     = (do_unset args;; mret Continue) w) ∧
  (∀ args : list string,
     main_dispatch libc (words ("exit" :: args)) w = Ret Break w) ∧
  (∀ args : list string,
     main_dispatch libc (words ("cd" :: args)) w
     = (do_cd libc args;; mret Continue) w) ∧
  (∀ (action : string) (args : list string),
     action ∉ builtins →
     main_dispatch libc (words (action :: args)) w
     = (launch libc action (action :: args);; mret Continue) w).
Proof.
  split; [done|]. split; [|split; [done|split; [done|split; [done|split; [done|]]]]].
  - intros line rest fault p Hexp.
    by rewrite main_loop_cons, main_body_unfold, Hexp.
  - intros action args Hnot. unfold main_dispatch, words.
    cbn [we_wordc we_wordv length hd tl Nat.eqb].
    unfold builtins in Hnot. rewrite !not_elem_of_cons in Hnot.
    destruct Hnot as (H1 & H2 & H3 & H4 & _).
    apply not_eq_sym, String.eqb_neq in H1, H2, H3, H4.
    by rewrite H1, H2, H3, H4.
Qed.

Lemma main_dispatch_cases_witness :
  main_dispatch Sample.libc (words ["EXIT"; "now"]) Sample.world
  = (launch Sample.libc "EXIT" ["EXIT"; "now"];; mret Continue) Sample.world
  ∧ main_loop Sample.libc ["   " +:+ nl] None (words []) Sample.world
    = main_loop Sample.libc [] None (words [])
        (after_prompt Sample.libc Sample.world).
Proof.
  destruct (main_dispatch_cases Sample.libc Sample.world)
    as (_ & Hblank & _ & _ & _ & _ & Hother).
  split.
  - apply Hother. unfold builtins. rewrite !not_elem_of_cons.
    repeat split; try discriminate. apply not_elem_of_nil.
  - exact (Hblank ("   " +:+ nl) [] None (words []) eq_refl).
Defined.

(** ** Leaving the loop *)

Lemma main_unfold (libc : Libc) (input : list string) (fault : option Z)
    (w : World) :
  main libc input fault w =
    main_from libc input fault
      (words (snd (wordexp_sys libc w EmptyString 0)))
      (set_env (wordexp_env libc w EmptyString 0) w).
Proof.
  unfold main, main_from. unfold wordexp at 1, mbind at 1, Proc_bind at 1.
  by destruct (wordexp_sys libc w EmptyString 0).
Qed.

(** A line on which the body of the loop says [continue] is followed by
    the treatment of the remaining input. *)
Lemma main_from_continue (libc : Libc) (line : string) (rest : list string)
    (fault : option Z) (p p' : wordexp_t) (c : control) (w w' : World) :
  main_body libc line p (at_body libc line rest fault w) = Ret (c, p') w' →
  c ≠ Break →
  main_from libc (line :: rest) fault p w = main_from libc rest fault p' w'.
Proof.
  intros Hbody Hc. unfold main_from. unfold mbind at 1, Proc_bind at 1.
  rewrite main_loop_cons, Hbody. by destruct c.
Qed.

Lemma at_body_clean (libc : Libc) (line : string) (rest : list string)
    (w : World) :
  at_body libc line rest None w = after_prompt libc w.
Proof. unfold at_body, read_error_at. by destruct rest. Qed.

Lemma main_from_cons (libc : Libc) (line : string) (rest : list string)
    (fault : option Z) (p : wordexp_t) (w : World) :
  main_from libc (line :: rest) fault p w =
    match main_body libc line p (at_body libc line rest fault w) with
    | Ret (Break, p') w' =>
        main_epilogue p' (bool_decide (is_Some (read_error_at line rest fault)))
          w'
    | Ret (_, p') w' => main_from libc rest fault p' w'
    | Exited s w' => Exited s w'
    | Replaced pr av w' => Replaced pr av w'
    end.
Proof.
  unfold main_from. unfold mbind at 1, Proc_bind at 1.
  rewrite main_loop_cons.
  destruct (main_body libc line p (at_body libc line rest fault w))
    as [[[| |] p'] w'| |]; done.
Qed.

Lemma main_loop_eof (libc : Libc) (p : wordexp_t) (w : World) :
  main_loop libc [] None p w
  = Ret (p, false) (put_stdout nl (after_prompt libc w)).
Proof.
  cbn [main_loop]. unfold mbind at 1, Proc_bind at 1.
  by rewrite prompt_returns.
Qed.

Lemma main_from_eof (libc : Libc) (p : wordexp_t) (w : World) :
  main_from libc [] None p w
  = Ret 0 (count_line_free (count_wordfree
                              (put_stdout nl (after_prompt libc w)))).
Proof.
  unfold main_from. unfold mbind at 1, Proc_bind at 1.
  by rewrite main_loop_eof.
Qed.

(** C7. At clean end of input (the lines are used up and the stream has
    no error): after the prompt the loop writes one newline and nothing
    else to standard output, is left, and [main] returns 0, so the process
    ends with status 0. *)
Theorem main_clean_end_of_input (libc : Libc) (p : wordexp_t) (w : World) :
  main_loop libc [] None p w
  = Ret (p, false) (put_stdout nl (after_prompt libc w)) ∧
  main_from libc [] None p w
  = Ret 0 (count_line_free (count_wordfree
                              (put_stdout nl (after_prompt libc w)))) ∧
  w_stdout (final_world (main_from libc [] None p w))
  = w_stdout (after_prompt libc w) +:+ nl ∧
  w_stderr (final_world (main_from libc [] None p w))
  = w_stderr (after_prompt libc w) ∧
  exit_status (main_from libc [] None p w) = Some 0 ∧
  exit_status (main libc [] None w) = Some 0.
Proof.
  split; [apply main_loop_eof|].
  rewrite main_unfold, !main_from_eof. done.
Qed.

(** ** Release of the line buffer and of the expander state *)

Lemma no_release_ret {A} (a : A) : no_release (mret a).
Proof. by intros w. Qed.

Lemma no_release_bind {A B} (m : Proc A) (f : A → Proc B) :
  no_release m → (∀ a, no_release (f a)) → no_release (m ≫= f).
Proof.
  intros Hm Hf w. unfold mbind, Proc_bind. specialize (Hm w).
  destruct (m w) as [a w1|s w1|pr av w1]; [|done|done].
  specialize (Hf a w1). destruct (f a w1); rewrite <- Hm; done.
Qed.

Lemma no_release_gets {A} (f : World → A) : no_release (gets f).
Proof. by intros w. Qed.

Lemma no_release_printf (s : string) : no_release (printf s).
Proof. by intros w. Qed.

Lemma no_release_error (status errnum : Z) (msg : string) :
  status = 0 ∨ status = EXIT_FAILURE → no_release (error status errnum msg).
Proof. intros [-> | ->] w; done. Qed.

Lemma no_release_set_errno (e : Z) : no_release (modify (set_errno e)).
Proof. by intros w. Qed.

Lemma no_release_syscalls (libc : Libc) :
  (∀ s, no_release (strdup libc s)) ∧
  (∀ n, no_release (getenv n)) ∧
  (∀ n v o, no_release (setenv libc n v o)) ∧
  (∀ n, no_release (unsetenv n)) ∧
  (∀ d, no_release (chdir libc d)) ∧
  (∀ n, no_release (getcwd libc n)) ∧
  no_release (fork libc) ∧
  (∀ pr av, no_release (execvp libc pr av)) ∧
  (∀ pid, no_release (waitpid libc pid)) ∧
  (∀ l f, no_release (wordexp libc l f)).
Proof.
  repeat apply conj; intros; intros w; proc_unfold;
    repeat match goal with
           | |- context [match ?x with _ => _ end] =>
               lazymatch x with
               | context [match _ with _ => _ end] => fail
               | _ => destruct x
               end
           end; done.
Qed.

Ltac no_release_step libc :=
  first
    [ apply no_release_ret
    | apply no_release_gets
    | apply no_release_printf
    | apply no_release_set_errno
    | apply no_release_error; (by left) || (by right)
    | apply (no_release_syscalls libc)
    | apply no_release_bind; [|intros ?]
    | match goal with
      | |- no_release (match ?x with _ => _ end) => destruct x
      end ].

Lemma no_release_prompt (libc : Libc) : no_release (prompt libc).
Proof. unfold prompt. repeat no_release_step libc. Qed.

Lemma no_release_do_export (libc : Libc) (argv : list string) :
  no_release (do_export libc argv).
Proof.
  induction argv as [|arg argv IH]; cbn [do_export].
  - apply no_release_ret.
  - repeat (exact IH || no_release_step libc).
Qed.

Lemma no_release_do_unset (libc : Libc) (argv : list string) :
  no_release (do_unset argv).
Proof.
  induction argv as [|arg argv IH]; cbn [do_unset].
  - apply no_release_ret.
  - repeat (exact IH || no_release_step libc).
Qed.

Lemma no_release_do_cd (libc : Libc) (argv : list string) :
  no_release (do_cd libc argv).
Proof. unfold do_cd. repeat no_release_step libc. Qed.

Lemma no_release_launch (libc : Libc) (program : string)
    (argv : list string) : no_release (launch libc program argv).
Proof. unfold launch. repeat no_release_step libc. Qed.

Lemma no_release_main_body (libc : Libc) (line : string) (p : wordexp_t) :
  no_release (main_body libc line p).
Proof.
  unfold main_body, main_switch, main_dispatch.
  repeat first [ apply no_release_do_export | apply (no_release_do_unset libc)
               | apply no_release_do_cd | apply no_release_launch
               | no_release_step libc ].
Qed.

Lemma no_release_main_loop (libc : Libc) (input : list string)
    (fault : option Z) (p : wordexp_t) :
  no_release (main_loop libc input fault p).
Proof.
  revert p. induction input as [|line input IH]; intros p; cbn [main_loop].
  - repeat (apply no_release_prompt || no_release_step libc).
  - repeat first [ apply no_release_prompt | apply no_release_main_body
                 | apply IH | no_release_step libc ].
Qed.

Lemma main_from_outcomes (libc : Libc) (input : list string)
    (fault : option Z) (p : wordexp_t) (w : World) :
  match main_from libc input fault p w with
  | Ret s w' => s = 0 ∧ released_once w (Ret s w')
  | Exited s w' => s = EXIT_FAILURE ∧ frees w' = frees w
  | Replaced _ _ w' => frees w' = frees w
  end.
Proof.
  unfold main_from, mbind at 1, Proc_bind at 1.
  pose proof (no_release_main_loop libc input fault p w) as Hloop.
  destruct (main_loop libc input fault p w) as [[p' e] w1|s w1|pr av w1];
    [|done|done].
  unfold main_epilogue. proc_unfold. unfold frees in Hloop.
  injection Hloop as Hl Hw. destruct e; cbn.
  - unfold frees; cbn. by rewrite Hl, Hw.
  - unfold released_once; cbn. by rewrite Hl, Hw.
Qed.

(** C2, as amended.  Every run of [main] ends in one of three ways.  When
    [main] returns, it returns 0 and the line buffer and the expander state
    have each been released exactly once.  When the process ends through
    [error] it ends with EXIT_FAILURE and neither has been released.  (A
    child whose image was replaced has released neither.)  The end of the
    input without read error makes [main] return.  So does the [exit]
    builtin, unless the line that held it was cut short by the read error
    of the stream: the error indicator is then set when the loop is left,
    and the process ends through [error] as after any failed read, with
    neither resource released. *)
Theorem main_release_paths (libc : Libc) :
  (∀ (input : list string) (fault : option Z) (w : World),
     match main libc input fault w with
     | Ret s w' => s = 0 ∧ released_once w (Ret s w')
     | Exited s w' => s = EXIT_FAILURE ∧ frees w' = frees w
     | Replaced _ _ w' => frees w' = frees w
     end) ∧
  (∀ (p : wordexp_t) (w : World),
     returns (main_from libc [] None p w) = true ∧
     released_once w (main_from libc [] None p w)) ∧
  (∀ (line : string) (rest args : list string) (fault : option Z)
     (p : wordexp_t) (w : World),
     wordexp_sys libc (at_body libc line rest fault w) (trimmed line)
       main_wordexp_flags
     = (0, "exit" :: args) →
     match read_error_at line rest fault with
     | None =>
         main_from libc (line :: rest) fault p w
         = Ret 0 (count_line_free
                    (count_wordfree
                       (expanded libc line (at_body libc line rest fault w))))
         ∧ released_once w (main_from libc (line :: rest) fault p w)
     | Some e =>
         main_from libc (line :: rest) fault p w
         = Exited EXIT_FAILURE
             (put_stderr (Diag "Failed to read next line" e)
                (expanded libc line (at_body libc line rest fault w)))
         ∧ frees (final_world (main_from libc (line :: rest) fault p w))
           = frees w
     end).
Proof.
  split; [|split].
  - intros input fault w. rewrite main_unfold.
    apply (main_from_outcomes libc input fault _
             (set_env (wordexp_env libc w EmptyString 0) w)).
  - intros p w.
    pose proof (main_from_eof libc p w) as Hfrom.
    pose proof (main_from_outcomes libc [] None p w) as Hout.
    rewrite Hfrom in *. by destruct Hout.
  - intros line rest args fault p w Hexp.
    pose proof (main_from_outcomes libc (line :: rest) fault p w) as Hout.
    assert (Hbody : main_body libc line p (at_body libc line rest fault w)
                    = Ret (Break, words ("exit" :: args))
                        (expanded libc line (at_body libc line rest fault w)))
      by (by rewrite main_body_unfold, Hexp).
    rewrite main_from_cons, Hbody in *.
    destruct (read_error_at line rest fault) as [e|] eqn:Hhit.
    + assert (Herrno : w_errno (expanded libc line
                                  (at_body libc line rest fault w)) = e)
        by (unfold expanded, at_body; by rewrite Hhit).
      rewrite bool_decide_eq_true_2 in * by eauto.
      assert (Hfrom :
        main_epilogue (words ("exit" :: args)) true
          (expanded libc line (at_body libc line rest fault w))
        = Exited EXIT_FAILURE
            (put_stderr (Diag "Failed to read next line" e)
               (expanded libc line (at_body libc line rest fault w))))
        by (unfold main_epilogue; proc_unfold; by rewrite Herrno).
      rewrite Hfrom in *. split; [done|]. by destruct Hout.
    + rewrite bool_decide_eq_false_2 in * by apply is_Some_None.
      assert (Hfrom :
        main_epilogue (words ("exit" :: args)) false
          (expanded libc line (at_body libc line rest fault w))
        = Ret 0 (count_line_free
                   (count_wordfree
                      (expanded libc line (at_body libc line rest fault w)))))
        by done.
      rewrite Hfrom in *. split; [done|]. by destruct Hout.
Qed.

Lemma main_release_paths_witness :
  main_from Sample.libc ["exit" +:+ nl; "ls"] None (words []) Sample.world
  = Ret 0 (count_line_free (count_wordfree
             (after_prompt Sample.libc Sample.world)))
  ∧ main_from Sample.libc ["exit"] (Some 5) (words []) Sample.world
    = Exited EXIT_FAILURE
        (put_stderr (Diag "Failed to read next line" 5)
           (set_errno 5 (after_prompt Sample.libc Sample.world))).
Proof.
  destruct (main_release_paths Sample.libc) as (_ & _ & Hexit).
  split.
  - exact (proj1 (Hexit ("exit" +:+ nl) ["ls"] [] None (words [])
                    Sample.world eq_refl)).
  - exact (proj1 (Hexit "exit" [] [] (Some 5) (words []) Sample.world
                    eq_refl)).
Defined.

(** C2 as stated fails: when the input ends with a read error (here
    error number 5, EIO, on an empty input) the process ends with
    EXIT_FAILURE, which is a fatal termination, and neither resource has
    been released. *)
Lemma main_read_error_releases_nothing :
  exit_status (main Sample.libc [] (Some 5) Sample.world) = Some EXIT_FAILURE
  ∧ ¬ released_once Sample.world (main Sample.libc [] (Some 5) Sample.world)
  ∧ w_line_frees (final_world (main Sample.libc [] (Some 5) Sample.world)) = 0%nat
  ∧ w_wordfrees (final_world (main Sample.libc [] (Some 5) Sample.world)) = 0%nat.
Proof.
  split; [by vm_compute|]. split; [|by vm_compute].
  unfold released_once. intros [H _]. vm_compute in H. discriminate.
Qed.

(** ** Command substitution *)

(** The handler is there: a return code WRDE_CMDSUB yields one diagnostic
    and [continue], and the words are not dispatched. *)
Lemma main_body_cmdsub_code (libc : Libc) (line : string) (p : wordexp_t)
    (ws : list string) (w : World) :
  wordexp_sys libc w (trimmed line) main_wordexp_flags = (WRDE_CMDSUB, ws) →
  main_body libc line p w =
    Ret (Continue, words ws)
      (put_stderr (Diag "Command line substitution is prohibited" 0)
         (expanded libc line w)).
Proof. intros H. by rewrite main_body_unfold, H. Qed.

(** But [wordexp] gives that code only when asked with WRDE_NOCMD, and the
    flags [main] passes are these three bits. *)
Lemma main_wordexp_flags_bits (n : Z) :
  Z.testbit main_wordexp_flags n = bool_decide (n = 3 ∨ n = 4 ∨ n = 5).
Proof.
  destruct (decide (0 <= n < 6)) as [H|H].
  - assert (n = 0 ∨ n = 1 ∨ n = 2 ∨ n = 3 ∨ n = 4 ∨ n = 5) as Hn by lia.
    destruct Hn as [-> | [-> | [-> | [-> | [-> | ->]]]]]; by vm_compute.
  - rewrite bool_decide_eq_false_2 by lia.
    destruct (decide (n < 0)) as [Hneg|Hpos].
    + by apply Z.testbit_neg_r.
    + change main_wordexp_flags with 56.
      apply (Z.bits_above_log2 56 n); [lia|]. change (Z.log2 56) with 5. lia.
Qed.

(** Hence on every system that follows POSIX the branch above is dead:
    the call in [main] never yields WRDE_CMDSUB. *)
Lemma main_wordexp_never_cmdsub (libc : Libc) (w : World) (line : string) :
  wordexp_posix_nocmd libc →
  fst (wordexp_sys libc w line main_wordexp_flags) ≠ WRDE_CMDSUB.
Proof. intros Hposix. by apply Hposix. Qed.

Lemma sample_wordexp_posix_nocmd : wordexp_posix_nocmd Sample.libc.
Proof.
  intros w line flags Hflags. cbn [wordexp_sys Sample.libc].
  unfold Sample.wordexp_sample. rewrite Hflags.
  by destruct (existsb Sample.is_cmdsub (Sample.split_blank line EmptyString)).
Qed.

(** C1 (what the code does).  The flags of the call in [main] do not
    contain WRDE_NOCMD.  On a system whose [wordexp] follows POSIX, the line
    [echo $(whoami)] is therefore expanded, command substitution included,
    and dispatched: [echo] is launched and nothing is written to standard
    error.  With WRDE_NOCMD the same [wordexp] answers WRDE_CMDSUB. *)
Theorem main_body_runs_command_substitution :
  Z.land main_wordexp_flags WRDE_NOCMD = 0 ∧
  main_body Sample.libc ("echo $(whoami)" +:+ nl) (words []) Sample.world
  = Ret (Continue, words ["echo"; "kid"])
      (put_stdout ("Process exited with error code 0" +:+ nl) Sample.world) ∧
  wordexp_sys Sample.libc Sample.world "echo $(whoami)"
    (Z.lor main_wordexp_flags WRDE_NOCMD) = (WRDE_CMDSUB, []).
Proof. split; [|split]; by vm_compute. Qed.

(** * Further properties of the code *)

(** ** [strlcpy] *)

Lemma strlcpy_loop_substring (src : string) (n : nat) :
  strlcpy_loop src (S n) = String.substring 0 n src.
Proof.
  revert n. induction src as [|c src IH]; intros [|n]; simpl; try done.
  by rewrite IH.
Qed.

Lemma strlcpy_loop_length (src : string) (n : nat) :
  String.length (strlcpy_loop src (S n)) = Nat.min (String.length src) n.
Proof.
  revert n. induction src as [|c src IH]; intros [|n]; simpl; try done.
  by rewrite IH.
Qed.

(** With a destination of [size] bytes, [size] not zero, [strlcpy] stores
    the first [size - 1] bytes of the source (all of it when it is
    shorter), so the stored text and its terminator fit the destination,
    and it returns the length of the source. *)
Theorem strlcpy_stores_prefix (dst src : string) (size : nat) :
  size ≠ 0%nat →
  fst (strlcpy dst src size) = String.substring 0 (size - 1) src ∧
  String.length (fst (strlcpy dst src size))
  = Nat.min (String.length src) (size - 1) ∧
  (String.length (fst (strlcpy dst src size)) < size)%nat ∧
  snd (strlcpy dst src size) = String.length src.
Proof.
  intros Hsize. destruct size as [|n]; [done|].
  unfold strlcpy. cbn [Nat.eqb negb fst snd].
  rewrite Nat.sub_succ, Nat.sub_0_r, strlcpy_loop_length.
  split; [apply strlcpy_loop_substring|]. split; [done|]. split; [lia|done].
Qed.

Lemma strlcpy_stores_prefix_witness :
  fst (strlcpy "junk" "!Failed to get CWD!" 8) = "!Failed".
Proof.
  destruct (strlcpy_stores_prefix "junk" "!Failed to get CWD!" 8) as [H _];
    [discriminate|].
  rewrite H. reflexivity.
Defined.

(** The caller can detect truncation: the whole source was stored exactly
    when the value returned is smaller than the size of the destination. *)
Theorem strlcpy_truncation_test (dst src : string) (size : nat) :
  size ≠ 0%nat →
  (fst (strlcpy dst src size) = src
   ↔ (snd (strlcpy dst src size) < size)%nat).
Proof.
  intros Hsize. split.
  - intros Heq. destruct size as [|n]; [done|].
    unfold strlcpy in *. cbn [Nat.eqb negb fst snd] in *.
    pose proof (strlcpy_loop_bound src (S n)) as Hb.
    rewrite Heq in Hb. simpl in Hb. lia.
  - intros Hlt. unfold strlcpy in Hlt. cbn [snd] in Hlt.
    by rewrite strlcpy_fits.
Qed.

Lemma strlcpy_truncation_test_witness :
  fst (strlcpy "" "!Path too long to be shown!" MAX_PATH_AT_PROMPT)
  = "!Path too long to be shown!".
Proof.
  apply strlcpy_truncation_test; [discriminate|].
  apply Nat.ltb_lt. reflexivity.
Defined.

(** ** [trim_newline] *)

Lemma string_get_last (s : string) (n : nat) (c : ascii) :
  String.length s = S n → String.get n s = Some c →
  s = String.substring 0 n s +:+ String c EmptyString.
Proof.
  revert n. induction s as [|x s IH]; intros n Hlen Hget; [done|].
  destruct n as [|n].
  - destruct s; [|done]. simpl in Hget. by injection Hget as ->.
  - cbn [String.get String.substring] in *.
    change (String x ?a +:+ ?b) with (String x (a +:+ b)).
    f_equal. apply IH; [|done]. simpl in Hlen. lia.
Qed.

Lemma string_get_app_last (t : string) (c : ascii) :
  String.get (String.length t) (t +:+ String c EmptyString) = Some c.
Proof.
  induction t as [|x t IH]; [done|].
  change (String x t +:+ ?b) with (String x (t +:+ b)). by simpl.
Qed.

Lemma string_length_app (a b : string) :
  String.length (a +:+ b) = (String.length a + String.length b)%nat.
Proof.
  induction a as [|x a IH]; [done|].
  change (String x a +:+ b) with (String x (a +:+ b)). simpl. by rewrite IH.
Qed.

Lemma trim_newline_cases (line : string) :
  let r := trim_newline line (Z.of_nat (String.length line)) in
  snd r = Z.of_nat (String.length (fst r)) ∧
  (line = fst r +:+ nl ∨ (fst r = line ∧ ∀ s, line ≠ s +:+ nl)).
Proof.
  assert (Hlast : ∀ s, String.length (s +:+ nl) = S (String.length s)).
  { intros s. rewrite string_length_app. simpl. lia. }
  unfold trim_newline.
  destruct (Z.of_nat (String.length line) <=? 0) eqn:Hle; cbn zeta.
  - apply Z.leb_le in Hle. split; [done|]. right. split; [done|].
    intros s ->. rewrite Hlast in Hle. lia.
  - apply Z.leb_gt in Hle.
    destruct (String.length line) as [|n] eqn:Hlen; [simpl in Hle; lia|].
    replace (Z.to_nat (Z.of_nat (S n) - 1)) with n by lia.
    destruct (String.get n line) as [c|] eqn:Hget.
    + destruct (decide (c = "010"%char)) as [->|Hne].
      * cbn [fst snd]. apply string_get_last in Hget; [|done].
        split; [|by left].
        rewrite Hget in Hlen. rewrite string_length_app in Hlen.
        simpl in Hlen. lia.
      * assert (Hsame : (if c is "010"%char
                         then (String.substring 0 n line, Z.of_nat (S n) - 1)
                         else (line, Z.of_nat (S n)))
                        = (line, Z.of_nat (S n))).
        { destruct c as [[] [] [] [] [] [] [] []]; try done. }
        rewrite Hsame. cbn [fst snd]. split; [by rewrite Hlen|].
        right. split; [done|].
        intros s ->. rewrite Hlast in Hlen. injection Hlen as <-.
        unfold nl in Hget. rewrite string_get_app_last in Hget. congruence.
    + cbn [fst snd]. split; [by rewrite Hlen|]. right. split; [done|].
      intros s ->. rewrite Hlast in Hlen. injection Hlen as <-.
      unfold nl in Hget. by rewrite string_get_app_last in Hget.
Qed.

(** Called as [main] calls it, with the length of the line: when the
    line ends with a newline exactly that one byte is removed, otherwise the
    line is left as it is; the length handed back is the length of the
    text handed back. *)
Theorem trim_newline_strips_last (line : string) :
  let r := trim_newline line (Z.of_nat (String.length line)) in
  snd r = Z.of_nat (String.length (fst r)) ∧
  (line = fst r +:+ nl ∨ (fst r = line ∧ ∀ s, line ≠ s +:+ nl)).
Proof. exact (trim_newline_cases line). Qed.

(** ** [launch]: the paths beside the report *)

(** A failed [fork] and a failed [waitpid] each cost one diagnostic with
    the error number of the call and nothing more: nothing is printed on
    standard output and [launch] returns to the loop. *)
Theorem launch_failures_are_not_fatal (libc : Libc) (program : string)
    (argv : list string) (w : World) :
  (∀ e, fork_sys libc w = inl e →
     launch libc program argv w
     = Ret tt (put_stderr (Diag "Failed to fork" e) (set_errno e w))) ∧
  (∀ pid e, fork_sys libc w = inr pid → pid ≠ -1 → pid ≠ 0 →
     waitpid_sys libc w pid = inl e →
     launch libc program argv w
     = Ret tt (put_stderr (Diag ("Failed to wait for child " +:+ fmt_d pid) e)
                 (set_errno e w))).
Proof.
  split.
  - intros e Hfork. unfold launch. proc_unfold. by rewrite Hfork.
  - intros pid e Hfork Hp1 Hp0 Hwait. unfold launch. proc_unfold.
    apply Z.eqb_neq in Hp1, Hp0. by rewrite Hfork, Hp1, Hp0, Hwait.
Qed.

Lemma launch_failures_are_not_fatal_witness :
  launch (Faulty.spawning (inl 11) None (inr 0)) "ls" ["ls"] Sample.world
  = Ret tt (put_stderr (Diag "Failed to fork" 11) (set_errno 11 Sample.world))
  ∧ launch (Faulty.spawning (inr 77) None (inl 10)) "ls" ["ls"] Sample.world
    = Ret tt (put_stderr (Diag "Failed to wait for child 77" 10)
                (set_errno 10 Sample.world)).
Proof.
  split.
  - destruct (launch_failures_are_not_fatal
                (Faulty.spawning (inl 11) None (inr 0)) "ls" ["ls"]
                Sample.world) as [Hfork _].
    apply Hfork. reflexivity.
  - destruct (launch_failures_are_not_fatal
                (Faulty.spawning (inr 77) None (inl 10)) "ls" ["ls"]
                Sample.world) as [_ Hwait].
    apply (Hwait 77 10); [reflexivity|discriminate|discriminate|reflexivity].
Defined.

(** In the child ([fork] returned 0) [launch] never returns to the loop:
    either the image is replaced by the program, with the argument vector
    it was given, or the child writes one diagnostic naming the program and
    ends with EXIT_FAILURE. *)
Theorem launch_child_never_returns (libc : Libc) (program : string)
    (argv : list string) (w : World) :
  fork_sys libc w = inr 0 →
  returns (launch libc program argv w) = false ∧
  match execvp_sys libc w program argv with
  | None => launch libc program argv w = Replaced program argv w
  | Some e =>
      launch libc program argv w
      = Exited EXIT_FAILURE
          (put_stderr (Diag ("Failed to exec " +:+ program) e)
             (set_errno e w))
  end.
Proof.
  intros Hfork. unfold launch. proc_unfold. rewrite Hfork.
  cbn [Z.eqb]. by destruct (execvp_sys libc w program argv).
Qed.

Lemma launch_child_never_returns_witness :
  launch (Faulty.spawning (inr 0) (Some 2) (inr 0)) "nosuch" ["nosuch"]
    Sample.world
  = Exited EXIT_FAILURE
      (put_stderr (Diag "Failed to exec nosuch" 2) (set_errno 2 Sample.world)).
Proof.
  destruct (launch_child_never_returns
              (Faulty.spawning (inr 0) (Some 2) (inr 0)) "nosuch" ["nosuch"]
              Sample.world eq_refl) as [_ H].
  exact H.
Defined.

(** ** The return codes of [wordexp] in [main] *)

(** Each of the five error codes of [wordexp] costs the line: one
    diagnostic without error number is written, the words [wordexp] may
    have left are not dispatched, whatever they are, and the loop goes on.
    The world is the one [wordexp] left, with the assignments its
    expansions made before the line was refused, plus that diagnostic. *)
Theorem main_body_classified_errors (libc : Libc) (line : string)
    (p : wordexp_t) (ws : list string) (ec : Z) (w : World) :
  wordexp_sys libc w (trimmed line) main_wordexp_flags = (ec, ws) →
  ec ∈ [WRDE_NOSPACE; WRDE_BADCHAR; WRDE_BADVAL; WRDE_CMDSUB; WRDE_SYNTAX] →
  ∃ msg,
    main_body libc line p w
    = Ret (Continue, words ws)
        (put_stderr (Diag msg 0) (expanded libc line w)) ∧
    msg ∈ ["Out of memory";
           "Illegal occurrence of newline or one of |, &, ;, <, >, (, ), {, }.";
           "Undefined shell variable was referenced";
           "Command line substitution is prohibited";
           "Syntax error: unbalanced parentheses, unmatched quotes etc"].
Proof.
  intros Hexp Hec. rewrite main_body_unfold, Hexp.
  rewrite !elem_of_cons, elem_of_nil in Hec.
  destruct Hec as [-> | [-> | [-> | [-> | [-> | []]]]]];
    eexists; (split; [reflexivity|]); rewrite !elem_of_cons; tauto.
Qed.

Lemma main_body_classified_errors_witness :
  ∃ msg,
    main_body (Faulty.assigning WRDE_BADCHAR "FOO" "bar")
      ("${FOO:=bar} |" +:+ nl) (words []) Sample.world
    = Ret (Continue, words [])
        (put_stderr (Diag msg 0)
           (set_env (<["FOO" := "bar"]> (w_env Sample.world)) Sample.world)).
Proof.
  destruct (main_body_classified_errors
              (Faulty.assigning WRDE_BADCHAR "FOO" "bar")
              ("${FOO:=bar} |" +:+ nl) (words []) [] WRDE_BADCHAR
              Sample.world eq_refl)
    as (msg & H & _).
  - rewrite !elem_of_cons. tauto.
  - exists msg. exact H.
Defined.

(** Any other return code of [wordexp] but 0 ends the process with
    EXIT_FAILURE, after one diagnostic that shows the code. *)
Theorem main_body_unexpected_code (libc : Libc) (line : string)
    (p : wordexp_t) (ws : list string) (ec : Z) (w : World) :
  wordexp_sys libc w (trimmed line) main_wordexp_flags = (ec, ws) →
  ¬ (0 <= ec <= 5) →
  main_body libc line p w
  = Exited EXIT_FAILURE
      (put_stderr (Diag ("Unexpected wordexp error code: " +:+ fmt_d ec) 0)
         (expanded libc line w)).
Proof.
  intros Hexp Hec. rewrite main_body_unfold, Hexp. unfold main_switch.
  assert ((ec =? 0) = false) as -> by (apply Z.eqb_neq; lia).
  assert ((ec =? WRDE_BADCHAR) = false) as ->
    by (apply Z.eqb_neq; unfold WRDE_BADCHAR; lia).
  assert ((ec =? WRDE_BADVAL) = false) as ->
    by (apply Z.eqb_neq; unfold WRDE_BADVAL; lia).
  assert ((ec =? WRDE_CMDSUB) = false) as ->
    by (apply Z.eqb_neq; unfold WRDE_CMDSUB; lia).
  assert ((ec =? WRDE_NOSPACE) = false) as ->
    by (apply Z.eqb_neq; unfold WRDE_NOSPACE; lia).
  assert ((ec =? WRDE_SYNTAX) = false) as ->
    by (apply Z.eqb_neq; unfold WRDE_SYNTAX; lia).
  done.
Qed.

Lemma main_body_unexpected_code_witness :
  main_body (Faulty.expanding 9 []) "ls" (words []) Sample.world
  = Exited EXIT_FAILURE
      (put_stderr (Diag "Unexpected wordexp error code: 9" 0) Sample.world).
Proof.
  apply (main_body_unexpected_code (Faulty.expanding 9 []) "ls" (words [])
           [] 9 Sample.world eq_refl).
  lia.
Defined.

(** ** The end of the input with a read error *)


(** The expander state handed from one iteration to the next has no
    influence on what the session does: every iteration overwrites it
    before reading it. *)
Theorem main_from_ignores_expander_state (libc : Libc)
    (input : list string) (fault : option Z) (p p' : wordexp_t) (w : World) :
  main_from libc input fault p w = main_from libc input fault p' w.
Proof.
  destruct input as [|line rest].
  - unfold main_from. cbn [main_loop]. unfold main_epilogue. proc_unfold.
    rewrite prompt_returns. by destruct fault.
  - by rewrite !main_from_cons, !main_body_unfold.
Qed.

(** ** [export] and [unset] on lists of arguments *)

Lemma do_export_nil (libc : Libc) (w : World) :
  do_export libc [] w = Ret tt w.
Proof. reflexivity. Qed.

(** What one argument of [export] does before the remaining ones are
    treated: it ends the process, or it hands on a world whose working
    directory and standard output are as before and whose environment is
    as before or has the key of the argument bound. *)
Lemma do_export_cons_cases (libc : Libc) (arg : string) (rest : list string)
    (w : World) :
  ∃ w1, w_cwd w1 = w_cwd w ∧ w_stdout w1 = w_stdout w ∧
        (do_export libc (arg :: rest) w = Exited EXIT_FAILURE w1
         ∧ w_env w1 = w_env w
         ∨ do_export libc (arg :: rest) w = do_export libc rest w1
           ∧ (w_env w1 = w_env w
              ∨ ∃ v, w_env w1 = <[export_key arg := v]> (w_env w))).
Proof.
  destruct (strdup_ok libc w arg) eqn:Hdup.
  - rewrite do_export_cons by done. unfold export_key.
    destruct (strsep arg eq_sign) as [key [value|]]; cbn [fst].
    + unfold setenv. destruct (valid_name key); cbn [negb].
      * destruct (setenv_nomem libc w key value).
        -- eexists; split; [|split; [|right; split; [reflexivity|by left]]];
             done.
        -- eexists; split; [|split; [|right; split; [reflexivity|right]]];
             [done|done|]. by exists value.
      * eexists; split; [|split; [|right; split; [reflexivity|by left]]];
          done.
    + exists w. split; [done|]. split; [done|]. right. split; [done|by left].
  - cbn [do_export]. proc_unfold. rewrite Hdup.
    eexists; split; [|split; [|left; split; [reflexivity|]]]; done.
Qed.

Lemma do_export_step (libc : Libc) (arg : string) (rest : list string)
    (w : World) :
  do_export libc (arg :: rest) w =
    match do_export libc [arg] w with
    | Ret _ w1 => do_export libc rest w1
    | Exited s w1 => Exited s w1
    | Replaced pr av w1 => Replaced pr av w1
    end.
Proof.
  destruct (strdup_ok libc w arg) eqn:Hdup.
  - rewrite !do_export_cons by done.
    destruct (strsep arg eq_sign) as [key [value|]]; [|done].
    destruct (setenv libc key value true w) as [r w1| |]; [|done|done].
    by destruct (r =? -1).
  - cbn [do_export]. proc_unfold. by rewrite Hdup.
Qed.

Lemma do_export_app (libc : Libc) (a b : list string) (w : World) :
  do_export libc (a ++ b) w = (do_export libc a;; do_export libc b) w.
Proof.
  revert w. induction a as [|arg a IH]; intros w; [done|].
  cbn [app]. unfold mbind, Proc_bind in *.
  rewrite do_export_step, (do_export_step libc arg a).
  destruct (do_export libc [arg] w) as [[] w1| |]; [|done|done].
  apply IH.
Qed.

Lemma do_unset_app (a b : list string) (w : World) :
  do_unset (a ++ b) w = (do_unset a;; do_unset b) w.
Proof.
  revert w. induction a as [|arg a IH]; intros w; [done|].
  cbn [app]. unfold mbind, Proc_bind in *.
  rewrite !do_unset_cons. destruct (valid_name arg); apply IH.
Qed.

(** The arguments of [export] and of [unset] are treated from left to
    right, each in the world the ones before it left: one command with the
    arguments [a ++ b] does what the command with [a] followed by the
    command with [b] does. *)
Theorem builtin_arguments_compose (libc : Libc) (a b : list string)
    (w : World) :
  do_export libc (a ++ b) w = (do_export libc a;; do_export libc b) w ∧
  do_unset (a ++ b) w = (do_unset a;; do_unset b) w.
Proof. split; [apply do_export_app|apply do_unset_app]. Qed.

Lemma do_export_returns (libc : Libc) (argv : list string) (w : World) :
  enough_memory libc → ∃ w', do_export libc argv w = Ret tt w'.
Proof.
  intros [Hdup Hmem]. revert w.
  induction argv as [|arg argv IH]; intros w; [by exists w|].
  rewrite do_export_cons by done.
  destruct (strsep arg eq_sign) as [key [value|]]; [|apply IH].
  unfold setenv. rewrite Hmem.
  destruct (valid_name key); cbn [negb orb]; apply IH.
Qed.

(** When memory does not run out, [export] returns, and the last
    argument that binds a name decides its value, whatever the environment
    held and whatever the arguments before it did. *)
Theorem do_export_last_binding_wins (libc : Libc) (argv : list string)
    (key value : string) (w : World) :
  enough_memory libc → valid_name key = true →
  ∃ w', do_export libc (argv ++ [key +:+ "=" +:+ value]) w = Ret tt w' ∧
        w_env w' !! key = Some value.
Proof.
  intros Hmem Hkey. rewrite do_export_app. unfold mbind, Proc_bind.
  destruct (do_export_returns libc argv w Hmem) as [w1 ->].
  destruct Hmem as [Hdup Hnomem].
  apply valid_name_spec in Hkey as Hk. destruct Hk as [_ Hno].
  rewrite do_export_cons by done.
  change (key +:+ "=" +:+ value) with (key +:+ String eq_sign value).
  rewrite strsep_found by done. unfold setenv. rewrite Hkey, Hnomem.
  cbn [negb orb Z.eqb]. rewrite do_export_nil.
  eexists; split; [reflexivity|]. cbn. apply lookup_insert_eq.
Qed.

Lemma sample_enough_memory : enough_memory Sample.libc.
Proof. by split. Qed.

Lemma do_export_last_binding_wins_witness :
  ∃ w', do_export Sample.libc ["HOME=/"; "HOME=/tmp"] Sample.world = Ret tt w'
        ∧ w_env w' !! "HOME" = Some "/tmp".
Proof.
  exact (do_export_last_binding_wins Sample.libc ["HOME=/"] "HOME" "/tmp"
           Sample.world sample_enough_memory eq_refl).
Defined.

(** [export] leaves alone every name that is not the key of one of its
    arguments, also when it ends the process half way. *)
Theorem do_export_other_names_untouched (libc : Libc) (argv : list string)
    (name : string) (w : World) :
  (∀ arg, arg ∈ argv → export_key arg ≠ name) →
  w_env (final_world (do_export libc argv w)) !! name = w_env w !! name.
Proof.
  revert w. induction argv as [|arg argv IH]; intros w Hkeys; [done|].
  assert (Harg : export_key arg ≠ name)
    by (apply Hkeys; apply elem_of_cons; by left).
  assert (Hrest : ∀ a, a ∈ argv → export_key a ≠ name)
    by (intros a Ha; apply Hkeys; apply elem_of_cons; by right).
  destruct (do_export_cons_cases libc arg argv w)
    as (w1 & _ & _ & [[-> Henv] | [-> Henv]]).
  - cbn. by rewrite Henv.
  - rewrite IH by done. destruct Henv as [-> | [v ->]]; [done|].
    by rewrite lookup_insert_ne.
Qed.

Lemma do_export_other_names_untouched_witness :
  w_env (final_world (do_export Sample.libc ["A=1"; "B"; "=x"] Sample.world))
    !! "HOME" = Some "/home/kid".
Proof.
  rewrite (do_export_other_names_untouched Sample.libc ["A=1"; "B"; "=x"]
             "HOME" Sample.world).
  - reflexivity.
  - intros arg Harg. rewrite !elem_of_cons, elem_of_nil in Harg.
    destruct Harg as [-> | [-> | [-> | []]]]; discriminate.
Defined.

(** The environment after [unset]: the well-formed names among the
    arguments are gone, every other name is as it was. *)
Theorem do_unset_lookup (argv : list string) (name : string) (w : World) :
  w_env (final_world (do_unset argv w)) !! name
  = if bool_decide (name ∈ argv) && valid_name name then None
    else w_env w !! name.
Proof.
  revert w. induction argv as [|arg argv IH]; intros w; [done|].
  rewrite do_unset_cons.
  destruct (decide (name = arg)) as [->|Hne].
  - rewrite bool_decide_eq_true_2 by (apply elem_of_cons; by left).
    cbn [andb]. destruct (valid_name arg) eqn:Hv; rewrite IH.
    + cbn [w_env set_env]. rewrite lookup_delete_eq. by destruct (_ && _).
    + rewrite andb_false_r. done.
  - assert (Hin : bool_decide (name ∈ arg :: argv) = bool_decide (name ∈ argv)).
    { apply bool_decide_ext. rewrite elem_of_cons. tauto. }
    rewrite Hin. destruct (valid_name arg); rewrite IH; cbn [w_env set_env].
    + by rewrite lookup_delete_ne.
    + done.
Qed.

(** Exporting a name that was not bound and then unsetting it gives the
    world back as it was: the environment, the outputs and all the rest. *)
Theorem export_then_unset_restores (libc : Libc) (key value : string)
    (w : World) :
  strdup_ok libc w (key +:+ "=" +:+ value) = true →
  setenv_nomem libc w key value = false →
  valid_name key = true → w_env w !! key = None →
  (do_export libc [key +:+ "=" +:+ value];; do_unset [key]) w = Ret tt w.
Proof.
  intros Hdup Hmem Hkey Habs. unfold mbind, Proc_bind.
  apply valid_name_spec in Hkey as Hk. destruct Hk as [_ Hno].
  rewrite do_export_cons by done.
  change (key +:+ "=" +:+ value) with (key +:+ String eq_sign value).
  rewrite strsep_found by done. unfold setenv. rewrite Hkey, Hmem.
  cbn [negb orb Z.eqb]. rewrite do_export_nil, do_unset_cons, Hkey.
  rewrite do_unset_nil. f_equal. cbn [w_env set_env].
  rewrite delete_insert_eq, delete_id by done. by destruct w.
Qed.

Lemma export_then_unset_restores_witness :
  (do_export Sample.libc ["EDITOR=vi"];; do_unset ["EDITOR"]) Sample.world
  = Ret tt Sample.world.
Proof.
  apply (export_then_unset_restores Sample.libc "EDITOR" "vi" Sample.world);
    reflexivity.
Defined.

Lemma do_export_strdup_fatal_witness :
  do_export Faulty.no_memory ["A=1"; "B=2"] Sample.world
  = Exited EXIT_FAILURE
      (put_stderr (Diag "Couldn't copy a string" ENOMEM)
         (set_errno ENOMEM Sample.world)).
Proof.
  apply (do_export_strdup_fatal Faulty.no_memory "A=1" ["B=2"] Sample.world).
  reflexivity.
Defined.

(** ** What the handlers leave alone *)

Ltac destruct_innermost :=
  repeat match goal with
         | |- context [match ?x with _ => _ end] =>
             lazymatch x with
             | context [match _ with _ => _ end] => fail
             | _ => destruct x
             end
         end.

Lemma do_export_keeps_cwd_stdout (libc : Libc) (argv : list string) :
  keeps w_cwd (do_export libc argv) ∧ keeps w_stdout (do_export libc argv).
Proof.
  unfold keeps.
  induction argv as [|arg argv [IHc IHo]]; [done|].
  split; intros w;
    destruct (do_export_cons_cases libc arg argv w)
      as (w1 & Hc & Ho & [[-> _] | [-> _]]); try done.
  - by rewrite IHc.
  - by rewrite IHo.
Qed.

Lemma do_unset_keeps_cwd_stdout (argv : list string) :
  keeps w_cwd (do_unset argv) ∧ keeps w_stdout (do_unset argv).
Proof.
  unfold keeps.
  induction argv as [|arg argv [IHc IHo]]; [done|].
  split; intros w; rewrite do_unset_cons; destruct (valid_name arg).
  - by rewrite IHc.
  - by rewrite IHc.
  - by rewrite IHo.
  - by rewrite IHo.
Qed.

(** [export] and [unset] never move the process and never write to
    standard output; [cd] never touches the environment nor standard
    output; launching a program changes neither the environment nor the
    working directory of the shell.  This holds however the call ends. *)
Theorem handlers_frame (libc : Libc) (argv : list string) :
  (keeps w_cwd (do_export libc argv) ∧ keeps w_stdout (do_export libc argv)) ∧
  (keeps w_cwd (do_unset argv) ∧ keeps w_stdout (do_unset argv)) ∧
  (keeps w_env (do_cd libc argv) ∧ keeps w_stdout (do_cd libc argv)) ∧
  (∀ program, keeps w_env (launch libc program argv) ∧
              keeps w_cwd (launch libc program argv)).
Proof.
  split; [apply do_export_keeps_cwd_stdout|].
  split; [apply do_unset_keeps_cwd_stdout|].
  split; [|intros program]; split; intros w;
    unfold do_cd, launch; proc_unfold; destruct_innermost; done.
Qed.

(** ** The label of the prompt *)

Lemma after_prompt_frame (libc : Libc) (w : World) :
  w_env (after_prompt libc w) = w_env w ∧
  w_cwd (after_prompt libc w) = w_cwd w.
Proof.
  unfold after_prompt, prompt. proc_unfold.
  destruct (getcwd_fault libc w) as [e|].
  - cbn [w_errno set_errno]. by destruct (e =? ERANGE).
  - by destruct (String.length (w_cwd w) <? MAX_PATH_AT_PROMPT)%nat.
Qed.

(** Whatever the working directory and whatever [getcwd] answers, the
    text shown between the brackets of the prompt is shorter than the 256
    bytes of the buffer it was built in. *)
Theorem prompt_label_fits (libc : Libc) (w : World) :
  ∃ label,
    w_stdout (after_prompt libc w) = w_stdout w +:+ prompt_text label ∧
    (String.length label < MAX_PATH_AT_PROMPT)%nat.
Proof.
  unfold after_prompt, prompt. proc_unfold.
  destruct (getcwd_fault libc w) as [e|].
  - cbn [w_errno set_errno]. destruct (e =? ERANGE).
    + exists "!Path too long to be shown!". split.
      * unfold prompt_text. cbn. by rewrite !string_app_assoc.
      * apply Nat.ltb_lt. reflexivity.
    + exists "!Failed to get CWD!". split.
      * unfold prompt_text. cbn. by rewrite !string_app_assoc.
      * apply Nat.ltb_lt. reflexivity.
  - destruct (String.length (w_cwd w) <? MAX_PATH_AT_PROMPT)%nat eqn:Hl.
    + exists (w_cwd w). split.
      * unfold prompt_text. cbn. by rewrite !string_app_assoc.
      * by apply Nat.ltb_lt.
    + cbn [w_errno set_errno]. exists "!Path too long to be shown!". split.
      * unfold prompt_text. cbn. by rewrite !string_app_assoc.
      * apply Nat.ltb_lt. reflexivity.
Qed.

(** ** Sessions *)

(** A session in which every line, when the loop comes to it, is blank
    or is refused by [wordexp] with one of its five error codes runs to the
    end of the input: no line ends the process, the working directory is
    unchanged and the process ends with status 0. *)
Theorem session_of_rejected_lines (libc : Libc) (input : list string)
    (p : wordexp_t) (w : World) :
  all_refused libc input w →
  ∃ w', main_from libc input None p w = Ret 0 w' ∧ w_cwd w' = w_cwd w.
Proof.
  revert p w. induction input as [|line rest IH]; intros p w Hlines.
  - rewrite main_from_eof. eexists; split; [reflexivity|].
    cbn. apply after_prompt_frame.
  - destruct (after_prompt_frame libc w) as [_ Hcwd].
    cbn [all_refused] in Hlines. destruct Hlines as [Hline Hrest].
    rewrite main_from_cons, at_body_clean.
    rewrite main_body_unfold in Hrest. rewrite main_body_unfold.
    destruct (wordexp_sys libc (after_prompt libc w) (trimmed line)
                main_wordexp_flags) as [ec ws].
    destruct Hline as [[= -> ->] | Hcode].
    + cbn in Hrest |- *.
      destruct (IH (words []) _ Hrest) as (w' & -> & Hc).
      exists w'. by rewrite Hc.
    + cbn [fst] in Hcode. rewrite !elem_of_cons, elem_of_nil in Hcode.
      destruct Hcode as [-> | [-> | [-> | [-> | [-> | []]]]]];
        cbn in Hrest |- *; proc_unfold; cbn in Hrest |- *;
        match goal with
        | |- context [main_from libc rest None ?q ?v] =>
            destruct (IH q v Hrest) as (w' & -> & Hc)
        end; exists w'; by rewrite Hc.
Qed.

Lemma session_of_rejected_lines_witness :
  ∃ w', main_from Faulty.reading_variables ["echo $EDITOR" +:+ nl; "  "]
          None (words []) Sample.world = Ret 0 w' ∧
        w_cwd w' = w_cwd Sample.world.
Proof.
  apply (session_of_rejected_lines Faulty.reading_variables
           ["echo $EDITOR" +:+ nl; "  "] (words []) Sample.world).
  cbn [all_refused]. split; [|split; [|exact I]].
  - right. apply elem_of_cons. right. apply elem_of_cons. right.
    apply elem_of_cons. by left.
  - left. reflexivity.
Defined.

(** ** Lines with and without their newline *)

Lemma string_substring_app (t u : string) :
  String.substring 0 (String.length t) (t +:+ u) = t.
Proof.
  induction t as [|x t IH]; [by destruct u|].
  change (String x t +:+ u) with (String x (t +:+ u)). simpl. by rewrite IH.
Qed.

Lemma trimmed_app_nl (line : string) : trimmed (line +:+ nl) = line.
Proof.
  unfold trimmed, trim_newline. rewrite string_length_app.
  change (String.length nl) with 1%nat.
  assert ((Z.of_nat (String.length line + 1) <=? 0) = false) as ->
    by (apply Z.leb_gt; lia).
  replace (Z.to_nat (Z.of_nat (String.length line + 1) - 1))
    with (String.length line) by lia.
  unfold nl. rewrite string_get_app_last. cbn [fst].
  apply string_substring_app.
Qed.

Lemma trimmed_without_nl (line : string) :
  (∀ s, line ≠ s +:+ nl) → trimmed line = line.
Proof.
  intros Hno. unfold trimmed.
  destruct (trim_newline_cases line) as [_ [Heq | [Heq _]]]; [|done].
  by destruct (Hno _ Heq).
Qed.

(** A last line that the input ends without a newline is treated exactly
    like the same line with its newline. *)
Theorem main_body_newline_is_optional (libc : Libc) (line : string)
    (p : wordexp_t) (w : World) :
  (∀ s, line ≠ s +:+ nl) →
  main_body libc line p w = main_body libc (line +:+ nl) p w.
Proof.
  intros Hno.
  rewrite !main_body_unfold. unfold expanded.
  by rewrite trimmed_app_nl, trimmed_without_nl.
Qed.

Lemma main_body_newline_is_optional_witness :
  main_body Sample.libc "cd /" (words []) Sample.world
  = main_body Sample.libc ("cd /" +:+ nl) (words []) Sample.world.
Proof.
  apply main_body_newline_is_optional.
  intros s Hs.
  assert (H : String.get 3 "cd /" = String.get 3 (s +:+ nl))
    by (by rewrite <- Hs).
  assert (Hlen : String.length (s +:+ nl) = 4%nat) by (by rewrite <- Hs).
  rewrite string_length_app in Hlen. change (String.length nl) with 1%nat in Hlen.
  replace 3%nat with (String.length s) in H at 2 by lia.
  unfold nl in H. rewrite string_get_app_last in H. discriminate.
Defined.

(** ** The handlers together *)

(** [cd] without argument follows HOME as the builtins leave it: after
    [unset HOME] it only reports that HOME is not set, and after
    [export HOME=dir] it does what [cd dir] does. *)
Theorem cd_follows_home (libc : Libc) (dir : string) (w : World) :
  (do_unset ["HOME"];; do_cd libc []) w
  = Ret tt (put_stderr (Diag "HOME not set" 0)
              (set_env (delete "HOME" (w_env w)) w)) ∧
  (strdup_ok libc w ("HOME=" +:+ dir) = true →
   setenv_nomem libc w "HOME" dir = false →
   (do_export libc ["HOME=" +:+ dir];; do_cd libc []) w
   = do_cd libc [dir] (set_env (<["HOME" := dir]> (w_env w)) w)).
Proof.
  split.
  - unfold mbind at 1, Proc_bind at 1.
    rewrite do_unset_cons, do_unset_nil.
    change (valid_name "HOME") with true. cbv iota.
    unfold do_cd. proc_unfold. cbn [w_env set_env].
    by rewrite lookup_delete_eq.
  - intros Hdup Hmem. unfold mbind at 1, Proc_bind at 1.
    rewrite do_export_cons by done.
    change (strsep ("HOME=" +:+ dir) eq_sign) with ("HOME", Some dir).
    unfold setenv. change (valid_name "HOME") with true. rewrite Hmem.
    cbn [negb orb Z.eqb]. rewrite do_export_nil.
    unfold do_cd. proc_unfold. cbn [w_env set_env].
    by rewrite lookup_insert_eq.
Qed.

Lemma cd_follows_home_witness :
  (do_export Sample.libc ["HOME=/"];; do_cd Sample.libc []) Sample.world
  = do_cd Sample.libc ["/"]
      (set_env (<["HOME" := "/"]> (w_env Sample.world)) Sample.world).
Proof.
  destruct (cd_follows_home Sample.libc "/" Sample.world) as [_ H].
  apply H; reflexivity.
Defined.

(** After a [cd] that succeeds, the next prompt shows the directory
    [chdir] took the process to, provided [getcwd] delivers it and it fits
    the buffer. *)
Theorem cd_then_prompt (libc : Libc) (dir target : string) (w : World) :
  chdir_sys libc w dir = inr target →
  getcwd_fault libc (set_cwd target w) = None →
  (String.length target < MAX_PATH_AT_PROMPT)%nat →
  (do_cd libc [dir];; prompt libc) w
  = Ret tt (put_stdout (prompt_text target) (set_cwd target w)).
Proof.
  intros Hcd Hget Hfit. apply Nat.ltb_lt in Hfit.
  unfold do_cd, prompt. proc_unfold. rewrite Hcd. cbn [Z.eqb].
  rewrite Hget. cbn [w_cwd set_cwd]. rewrite Hfit.
  unfold put_stdout, prompt_text. cbn. by rewrite !string_app_assoc.
Qed.

Lemma cd_then_prompt_witness :
  (do_cd Sample.libc ["/home/kid"];; prompt Sample.libc) Sample.world
  = Ret tt (put_stdout (prompt_text "/home/kid")
              (set_cwd "/home/kid" Sample.world)).
Proof.
  apply cd_then_prompt; [reflexivity|reflexivity|].
  apply Nat.ltb_lt. reflexivity.
Defined.
